(** * Automated test assembly: the lpsolve encoder of [lpsolve/ata.py]

    A shallow embedding of the classes [Constraint], [ConstrainedAttribute],
    [MultiConstrainedAttribute] and [Solver], and the properties of the
    program text that [Solver.solve] writes.

    Python values are modelled as follows.
    - An [int] is a [Z]; [str(n)] is stdpp's decimal printer [pretty].
    - A [str] is a [string]; [sep.join(l)] is [String.concat sep l].
    - A numpy array or pandas column is a [list] of cell values.
    - A [dict] that the code iterates over ([iteritems]) is an association
      list in iteration order; a [dict] that the code only indexes is a
      [gmap].
    - An exception is a [Raise e] outcome; effects performed before the
      exception (text printed, text written to a file) are kept.
    - The operating system accepts every [open] and every [write]: the
      [IOError] of a path that cannot be opened or of a full disk is outside
      the model. *)

From Stdlib Require Import ZArith String Ascii List Lia.
From stdpp Require Import base tactics option list numbers strings pretty gmap.

Local Open Scope string_scope.
Local Open Scope list_scope.
Local Open Scope Z_scope.

(** ** Python values and exceptions *)

(** A cell of the item table, a category key, or an item identifier. *)
Inductive pyval : Type :=
  | PyStr (s : string)
  | PyInt (z : Z).

#[global] Instance pyval_eq_dec : EqDecision pyval.
Proof. solve_decision. Defined.

Inductive exn : Type :=
  | TypeError
  | KeyError
  | IndexError
  | ValueError
  | AttributeError.

#[global] Instance exn_eq_dec : EqDecision exn.
Proof. solve_decision. Defined.

Inductive result (A : Type) : Type :=
  | Ok (a : A)
  | Raise (e : exn).
Arguments Ok {A} a.
Arguments Raise {A} e.

#[global] Instance result_ret : MRet result := λ A a, Ok a.
#[global] Instance result_bind : MBind result := λ A B k m,
  match m with
  | Ok a => k a
  | Raise e => Raise e
  end.

(** A list comprehension whose element expression may raise. *)
Fixpoint traverse {A B : Type} (f : A → result B) (l : list A) : result (list B) :=
  match l with
  | [] => Ok []
  | a :: l' => b ← f a; bs ← traverse f l'; Ok (b :: bs)
  end.

(** The line terminator ['\n']. *)
Definition nl : string := String "010"%char "".

(** [str(v)] *)
Definition py_str (v : pyval) : string :=
  match v with
  | PyStr s => s
  | PyInt z => pretty z
  end.

(** [v + s] for a [str] [s]: concatenation when [v] is a [str], a
    [TypeError] when [v] is an integer. *)
Definition py_add_str (v : pyval) (s : string) : result string :=
  match v with
  | PyStr a => Ok (a +:+ s)
  | PyInt _ => Raise TypeError
  end.

(** [a == b] on cells *)
Definition py_eq (a b : pyval) : bool := bool_decide (a = b).

Definition is_int (v : pyval) : bool :=
  match v with
  | PyInt _ => true
  | PyStr _ => false
  end.

(** numpy compares an array with a key cell by cell when the element type
    of the array admits the key: an integer key with every array but an
    array of strings, a string key with every array but an array of
    integers (the empty array is numeric). An array that holds integers and
    strings is an array of objects and admits every key. *)
Definition comparable (a : list pyval) (key : pyval) : bool :=
  match key with
  | PyInt _ => negb (bool_decide (a ≠ []) && forallb (λ v, negb (is_int v)) a)
  | PyStr _ => negb (forallb is_int a)
  end.

(** [a == key] for an array [a]: the array of the comparisons of the
    cells, or the single value [False] when the element type of the array
    does not admit the key. A single value counts as an array of size 1
    wherever it is used below ([np.where] repeats it, [bool] reads it). *)
Definition np_eq (a : list pyval) (key : pyval) : list bool :=
  if comparable a key then (λ v, py_eq v key) <$> a else [false].

(** The characters for which C's [isspace] holds: space, tab, line feed,
    vertical tab, form feed and carriage return. *)
Definition isspace (c : ascii) : bool :=
  bool_decide (c ∈ [" "; "009"; "010"; "011"; "012"; "013"]%char).

Fixpoint last_char (s : string) : option ascii :=
  match s with
  | EmptyString => None
  | String c EmptyString => Some c
  | String _ s' => last_char s'
  end.

(** What the [print] statement of Python 2 writes between a string item
    [s] and the next item: a space, unless [s] ends with a whitespace
    character other than the space. *)
Definition soft_space (s : string) : string :=
  match last_char s with
  | Some c => if isspace c && negb (bool_decide (c = " "%char)) then "" else " "
  | None => " "
  end.

(** [range(n)]: empty when [n ≤ 0]. *)
Definition range (n : Z) : list Z := seqZ 0 n.

(** ** The interpreter state and the monad of statements *)

Section monad.
Context {Obj : Type}.

(** [heap] holds the objects of class [Obj] by address, [stdout] the text
    printed so far, [files] the content of every file by name. *)
Record State : Type := mkState {
  heap : gmap nat Obj;
  stdout : string;
  files : gmap string string
}.

Definition M (A : Type) : Type := State → State * result A.

Definition ret {A : Type} (a : A) : M A := λ σ, (σ, Ok a).

Definition bind {A B : Type} (m : M A) (k : A → M B) : M B := λ σ,
  match m σ with
  | (σ', Ok a) => k a σ'
  | (σ', Raise e) => (σ', Raise e)
  end.

Definition lift {A : Type} (r : result A) : M A := λ σ, (σ, r).

(** The [print] statement: the text and a newline go to standard output,
    which is at the start of a line (no soft space is pending). *)
Definition print (s : string) : M unit := λ σ,
  (mkState (heap σ) (stdout σ +:+ s +:+ nl) (files σ), Ok tt).

(** [open(path, 'w')]: the file is created or truncated. *)
Definition open_w (path : string) : M unit := λ σ,
  (mkState (heap σ) (stdout σ) (<[path := ""]> (files σ)), Ok tt).

(** [lp.write(s)] on the file opened at [path]. *)
Definition write (path s : string) : M unit := λ σ,
  match files σ !! path with
  | Some old => (mkState (heap σ) (stdout σ) (<[path := old +:+ s]> (files σ)), Ok tt)
  | None => (σ, Raise ValueError)
  end.

(** Allocation of a new object. *)
Definition new (o : Obj) : M nat := λ σ,
  let l := fresh (dom (heap σ)) in
  (mkState (<[l := o]> (heap σ)) (stdout σ) (files σ), Ok l).

(** Access to the object [self] points to. *)
Definition deref (l : nat) : M Obj := λ σ,
  match heap σ !! l with
  | Some o => (σ, Ok o)
  | None => (σ, Raise AttributeError)
  end.

(** A [for] loop over a list. *)
Fixpoint for_ {A : Type} (l : list A) (body : A → M unit) : M unit :=
  match l with
  | [] => ret tt
  | a :: l' => bind (body a) (λ _, for_ l' body)
  end.

End monad.

Arguments State : clear implicits.
Arguments M : clear implicits.

Notation "'do' x <- m ; k" := (bind m (λ x, k))
  (at level 10, x name, m at level 100, k at level 200).
Notation "m ;; k" := (bind m (λ _, k))
  (at level 100, k at level 200, right associativity).

(** ** class Constraint *)

Module Constraint.

Record t : Type := mk {
  ids : list pyval;
  comparator : string;
  constraint : Z
}.

(** [Constraint.__init__]: the three arguments are stored as they are. *)
Definition init (ids : list pyval) (comparator : string) (constraint : Z) : t :=
  mk ids comparator constraint.

(** [Constraint.as_lpsolve_string] *)
Definition as_lpsolve_string (self : t) (form : Z) : result string :=
  var_names ← traverse (λ x, a ← py_add_str x "_"; Ok (a +:+ pretty form)) (ids self);
  Ok (String.concat " + " var_names +:+ comparator self +:+ pretty (constraint self) +:+ ";" +:+ nl).

End Constraint.

(** ** numpy operations on one-dimensional arrays *)

(** The common shape of two one-dimensional operands of sizes [n] and [m]:
    equal sizes, or one of them of size 1, which is then repeated. *)
Definition broadcast_shape (n m : nat) : result nat :=
  if decide (n = m) then Ok n
  else if decide (n = 1%nat) then Ok m
  else if decide (m = 1%nat) then Ok n
  else Raise ValueError.

Definition broadcast_to {A : Type} (n : nat) (a : list A) : list A :=
  match a with
  | [x] => replicate n x
  | _ => a
  end.

(** [np.where(cond, x, y)] *)
Definition np_where (cond : list bool) (x y : list Z) : result (list Z) :=
  k ← broadcast_shape (length x) (length y);
  n ← broadcast_shape (length cond) k;
  Ok (zip_with (λ (c : bool) (xy : Z * Z), if c then xy.1 else xy.2)
        (broadcast_to n cond) (zip (broadcast_to n x) (broadcast_to n y))).

(** [a[mask]] for a Boolean array [mask]: the cells of [a] at the
    positions where [mask] holds. An empty mask selects nothing; otherwise
    the sizes must agree. *)
Definition mask_index {A : Type} (a : list A) (mask : list bool) : result (list A) :=
  match mask with
  | [] => Ok []
  | _ :: _ =>
      if decide (length mask = length a)
      then Ok (filter (λ p : A * bool, p.2 = true) (zip a mask)).*1
      else Raise IndexError
  end.

(** [a[idx]] for an array [idx] of positions. *)
Definition take_index {A : Type} (a : list A) (idx : list nat) : result (list A) :=
  traverse (λ i, match a !! i with Some x => Ok x | None => Raise IndexError end) idx.

(** [bool(a)] for an array [a]: the cell of an array of size 1, [False]
    for an empty array, and a [ValueError] for two cells or more (the truth
    value of such an array is ambiguous). *)
Definition array_truth (a : list bool) : result bool :=
  match a with
  | [] => Ok false
  | [b] => Ok b
  | _ => Raise ValueError
  end.

(** [np.where(b)[0]] for a Python Boolean [b]: the positions of the
    non-zero cells of the zero-dimensional array [b]. *)
Definition np_where_scalar (b : bool) : list nat :=
  if b then [0%nat] else [].

(** ** class ConstrainedAttribute *)

Module ConstrainedAttribute.

Record t : Type := mk {
  constraints : list Constraint.t
}.

Section init.
Context {Obj : Type}.
Context (classifications : list pyval) (comparator : string) (ids : list pyval).

(** The inner loop [for classification, category in zip(...)]. *)
Fixpoint narrow (pairs : list (list pyval * pyval)) (zeros items : list Z) : result (list Z) :=
  match pairs with
  | [] => Ok items
  | (classification, category) :: pairs' =>
      items' ← np_where (np_eq classification category) items zeros;
      narrow pairs' zeros items'
  end.

(** The loop [for categories, limit in constraints.iteritems()]; [acc] is
    [self.constraints]. The subset [ids[items == 1]] is computed twice in
    the source, with the same outcome; it is bound once here. *)
Fixpoint init_loop (entries : list (pyval * Z)) (acc : list Constraint.t) : M Obj (list Constraint.t) :=
  match entries with
  | [] => ret acc
  | (categories, limit) :: entries' =>
      let zeros := replicate (length ids) 0 in
      let ones := replicate (length ids) 1 in
      do items <- lift (narrow (zip [classifications] [categories]) zeros ones);
      do chosen <- lift (mask_index ids ((λ x, bool_decide (x = 1)) <$> items));
      let acc' := acc ++ [Constraint.init chosen comparator limit] in
      print (pretty (length chosen) +:+ " " +:+ comparator +:+ soft_space comparator
             +:+ pretty limit +:+ " " +:+ py_str categories) ;;
      init_loop entries' acc'
  end.

End init.

(** [ConstrainedAttribute.__init__] *)
Definition init {Obj : Type} (classifications : list pyval) (comparator : string)
    (constraints : list (pyval * Z)) (ids : list pyval) : M Obj t :=
  do cs <- init_loop classifications comparator ids constraints [];
  ret (mk cs).

(** [ConstrainedAttribute.as_lpsolve_string] *)
Definition as_lpsolve_string (self : t) (form : Z) : result string :=
  lines ← traverse (λ c, Constraint.as_lpsolve_string c form) (constraints self);
  Ok (String.concat "" lines).

End ConstrainedAttribute.

(** ** class MultiConstrainedAttribute *)

Module MultiConstrainedAttribute.

(** The built-in [all] over the generator
    [classifications[i] == category[i] for i in range(len(classifications))]:
    every element is an array of Booleans, and [all] asks each for its
    truth value, stopping at the first false one. *)
Fixpoint all_equal (classifications : list (list pyval)) (category : list pyval)
    (indices : list nat) : result bool :=
  match indices with
  | [] => Ok true
  | i :: indices' =>
      classification ← match classifications !! i with
                       | Some c => Ok c
                       | None => Raise IndexError
                       end;
      key ← match category !! i with
            | Some k => Ok k
            | None => Raise IndexError
            end;
      b ← array_truth (np_eq classification key);
      if (b : bool) then all_equal classifications category indices' else Ok false
  end.

Fixpoint init_loop (classifications : list (list pyval)) (comparator : string)
    (ids : list pyval) (entries : list (list pyval * Z)) (acc : list Constraint.t) :
    result (list Constraint.t) :=
  match entries with
  | [] => Ok acc
  | (category, limit) :: entries' =>
      b ← all_equal classifications category (seq 0 (length classifications));
      chosen ← take_index ids (np_where_scalar b);
      init_loop classifications comparator ids entries'
        (acc ++ [Constraint.init chosen comparator limit])
  end.

(** [MultiConstrainedAttribute.__init__]; the class inherits
    [as_lpsolve_string]. *)
Definition init (classifications : list (list pyval)) (comparator : string)
    (constraints : list (list pyval * Z)) (ids : list pyval) : result ConstrainedAttribute.t :=
  cs ← init_loop classifications comparator ids constraints [];
  Ok (ConstrainedAttribute.mk cs).

End MultiConstrainedAttribute.

(** ** The item table and the constraint specification *)

(** A data frame: [nrows] is [len(data)], [columns] the cells of every
    column by name. *)
Record DataFrame : Type := mkDataFrame {
  nrows : nat;
  columns : gmap string (list pyval)
}.

(** Every column has one cell per row. *)
Definition DataFrame_wf (data : DataFrame) : Prop :=
  map_Forall (λ (_ : string) (col : list pyval), length col = nrows data) (columns data).

(** [data.name] *)
Definition df_attr (data : DataFrame) (name : string) : result (list pyval) :=
  match columns data !! name with
  | Some col => Ok col
  | None => Raise AttributeError
  end.

(** [data[name]] *)
Definition df_getitem (data : DataFrame) (name : string) : result (list pyval) :=
  match columns data !! name with
  | Some col => Ok col
  | None => Raise KeyError
  end.

(** One rule [{"comparator": c, "values": {category: bound, ...}}]. *)
Record rule : Type := mkRule {
  rule_comparator : string;
  rule_values : list (pyval * Z)
}.

(** ** class Solver *)

Module Solver.

Record t : Type := mk {
  num_forms : Z;
  items_per_form : Z;
  num_items : nat;
  ids : list pyval;
  decision_vars : Z;
  item_occurences : gmap nat (list string);
  form_items : gmap Z (list string);
  constraints : list ConstrainedAttribute.t;
  var_names : list string
}.

(** [Solver.print_constraint] *)
Definition print_constraint (decision_vars : list string) (comparator : string) (total : Z) : string :=
  String.concat " + " decision_vars +:+ comparator +:+ pretty total +:+ ";" +:+ nl.

(** [Solver._var_for]; of [self] it reads [self.ids] only. *)
Definition _var_for (ids : list pyval) (item : nat) (form : Z) : result string :=
  id ← match ids !! item with
       | Some id => Ok id
       | None => Raise KeyError
       end;
  a ← py_add_str id "_";
  Ok (a +:+ pretty form).

(** The loop [for constraint in constraints] of [__init__]; [acc] is
    [self.constraints]. *)
Fixpoint init_rules (data : DataFrame) (ids : list pyval) (category : string)
    (rules : list rule) (acc : list ConstrainedAttribute.t) : M t (list ConstrainedAttribute.t) :=
  match rules with
  | [] => ret acc
  | constraint :: rules' =>
      do column <- lift (df_getitem data category);
      do c <- ConstrainedAttribute.init column (rule_comparator constraint)
                (rule_values constraint) ids;
      init_rules data ids category rules' (acc ++ [c])
  end.

(** The loop [for category, constraints in constraints.iteritems()]. *)
Fixpoint init_attributes (data : DataFrame) (ids : list pyval)
    (spec : list (string * list rule)) (acc : list ConstrainedAttribute.t) :
    M t (list ConstrainedAttribute.t) :=
  match spec with
  | [] => ret acc
  | (category, rules) :: spec' =>
      do acc' <- init_rules data ids category rules acc;
      init_attributes data ids spec' acc'
  end.

(** [Solver.__init__]: the fields are computed in the order of the source
    and the object is returned by address. *)
Definition init (data : DataFrame) (constraints : list (string * list rule))
    (num_forms items_per_form : Z) : M t nat :=
  let num_items := nrows data in
  do ids <- lift (df_attr data "item_id");
  let decision_vars := Z.of_nat num_items * num_forms in
  do item_occurences <- lift (traverse (λ item,
      vars ← traverse (λ form, _var_for ids item form) (range num_forms);
      Ok (item, vars)) (seq 0 num_items));
  do form_items <- lift (traverse (λ form,
      vars ← traverse (λ item, _var_for ids item form) (seq 0 num_items);
      Ok (form, vars)) (range num_forms));
  do cs <- init_attributes data ids constraints [];
  do var_names <- lift (traverse (λ item,
      traverse (λ form, _var_for ids item form) (range num_forms)) (seq 0 num_items));
  new (mk num_forms items_per_form num_items ids decision_vars
         (list_to_map item_occurences) (list_to_map form_items) cs (mjoin var_names)).

(** [d[k]] on a dictionary. *)
Definition getitem `{Countable K} {V : Type} (d : gmap K V) (k : K) : result V :=
  match d !! k with
  | Some v => Ok v
  | None => Raise KeyError
  end.

(** The statements of [solve] that follow the objective line, on the
    object [s] that [self] points to. *)
Definition write_constraints (s : t) (outfilename : string) : M t unit :=
  for_ (seq 0 (num_items s)) (λ i,
    do occ <- lift (getitem (item_occurences s) i);
    write outfilename (print_constraint occ "<=" 1)) ;;
  for_ (range (num_forms s)) (λ f,
    do vars <- lift (getitem (form_items s) f);
    write outfilename (print_constraint vars "=" (items_per_form s))) ;;
  for_ (range (num_forms s)) (λ form,
    for_ (constraints s) (λ constraint,
      do text <- lift (ConstrainedAttribute.as_lpsolve_string constraint form);
      write outfilename text)) ;;
  write outfilename ("bin " +:+ String.concat ", " (var_names s) +:+ ";" +:+ nl).

(** [Solver.solve] *)
Definition solve (self : nat) (outfilename : string) : M t unit :=
  open_w outfilename ;;
  write outfilename ("min: ;" +:+ nl) ;;
  do s <- deref self;
  write_constraints s outfilename.

End Solver.

(** The last two statements of [main]: the encoder is constructed on the
    table and the specification, and [solve] writes the output file. *)
Definition run (data : DataFrame) (spec : list (string * list rule))
    (num_forms items_per_form : Z) (outfile : string) : M Solver.t unit :=
  do s <- Solver.init data spec num_forms items_per_form;
  Solver.solve s outfile.

(** * Specifications *)

(** ** The effect of a statement *)

Section effect_predicates.
Context {Obj : Type}.

(** [prints m out r]: from every state, [m] appends [out] to the standard
    output, touches neither the heap nor the files, and ends with [r]. *)
Definition prints {A : Type} (m : M Obj A) (out : string) (r : result A) : Prop :=
  ∀ σ, m σ = (mkState (heap σ) (stdout σ +:+ out) (files σ), r).

(** [writes path m text r]: from every state in which the file [path] is
    open, [m] appends [text] to that file, touches nothing else, and ends
    with [r]. *)
Definition writes {A : Type} (path : string) (m : M Obj A) (text : string) (r : result A) : Prop :=
  ∀ σ old, files σ !! path = Some old →
    m σ = (mkState (heap σ) (stdout σ) (<[path := old +:+ text]> (files σ)), r).

(** [constructs m out r]: from every state, [m] appends [out] to the
    standard output and ends either with a new object at a new address
    ([r = Ok o]) or with an exception and an unchanged heap. *)
Definition constructs (m : M Obj nat) (out : string) (r : result Obj) : Prop :=
  ∀ σ, m σ =
    match r with
    | Ok o =>
        (mkState (<[fresh (dom (heap σ)) := o]> (heap σ)) (stdout σ +:+ out) (files σ),
         Ok (fresh (dom (heap σ))))
    | Raise e => (mkState (heap σ) (stdout σ +:+ out) (files σ), Raise e)
    end.

End effect_predicates.

(** ** The constraints of a rule *)

(** The cells of [ids] at the positions where [column] holds [category]. *)
Definition select {A : Type} (ids : list A) (column : list pyval) (category : pyval) : list A :=
  (filter (λ p : A * pyval, p.2 = category) (zip ids column)).*1.

Section constraint_of.
Context (classifications : list pyval) (comparator : string) (ids : list pyval).

(** The Constraint of one entry of the bound mapping. *)
Definition constraint_of (entry : pyval * Z) : Constraint.t :=
  Constraint.mk (select ids classifications entry.1) comparator entry.2.

(** The line that [__init__] prints for one entry. *)
Definition log_line (entry : pyval * Z) : string :=
  (pretty (length (select ids classifications entry.1)) +:+ " " +:+ comparator
   +:+ soft_space comparator +:+ pretty entry.2 +:+ " " +:+ py_str entry.1) +:+ nl.

End constraint_of.

(** The ConstrainedAttribute of one rule. *)
Definition attribute_of (ids : list pyval) (cr : list pyval * rule) : ConstrainedAttribute.t :=
  ConstrainedAttribute.mk
    (constraint_of cr.1 (rule_comparator cr.2) ids <$> rule_values cr.2).

(** The lines that the construction of one rule prints. *)
Definition rule_log (ids : list pyval) (cr : list pyval * rule) : string :=
  String.concat "" (log_line cr.1 (rule_comparator cr.2) ids <$> rule_values cr.2).

(** ** The program that the encoder writes, in closed form *)

(** The name of the decision variable of an item and a form. *)
Definition var_name (id : string) (form : Z) : string := (id +:+ "_") +:+ pretty form.

(** The cells of a column, by name. *)
Definition column (data : DataFrame) (attr : string) : list pyval :=
  default [] (columns data !! attr).

(** Every rule of the specification with the column it constrains, in the
    iteration order of the specification. *)
Definition rules_of (data : DataFrame) (spec : list (string * list rule)) :
    list (list pyval * rule) :=
  spec ≫= λ '(attr, rules), (λ r, (column data attr, r)) <$> rules.

(** The number of (category, bound) entries of all rules. *)
Definition entry_count (spec : list (string * list rule)) : nat :=
  sum_list_with (λ ar : string * list rule,
    sum_list_with (λ r, length (rule_values r)) ar.2) spec.

(** The number of rules of all attributes. *)
Definition rule_count (spec : list (string * list rule)) : nat :=
  sum_list_with (λ ar : string * list rule, length ar.2) spec.

Section program.
Context (names : list string) (data : DataFrame) (spec : list (string * list rule)).
Context (num_forms items_per_form : Z).

(** One line per item: the item is in one form at most. *)
Definition uniqueness_lines : list string :=
  (λ id, Solver.print_constraint (var_name id <$> range num_forms) "<=" 1) <$> names.

(** One line per form: the form holds [items_per_form] items. *)
Definition size_lines : list string :=
  (λ f, Solver.print_constraint ((λ id, var_name id f) <$> names) "=" items_per_form)
    <$> range num_forms.

(** The line of one entry of the bound mapping of a rule, for a form. *)
Definition category_line (form : Z) (cr : list pyval * rule) (entry : pyval * Z) : string :=
  String.concat " + " ((λ id, var_name id form) <$> select names cr.1 entry.1)
  +:+ rule_comparator cr.2 +:+ pretty entry.2 +:+ ";" +:+ nl.

(** The lines of one rule for a form: one per entry of its bound mapping. *)
Definition rule_lines (form : Z) (cr : list pyval * rule) : list string :=
  category_line form cr <$> rule_values cr.2.

(** The category lines: for every form, for every rule, for every entry. *)
Definition category_lines : list string :=
  range num_forms ≫= λ form, rules_of data spec ≫= rule_lines form.

(** The declaration of the decision variables, item by item. *)
Definition bin_line : string :=
  "bin " +:+ String.concat ", " (names ≫= λ id, var_name id <$> range num_forms)
  +:+ ";" +:+ nl.

Definition program : string :=
  ("min: ;" +:+ nl)
  +:+ String.concat "" uniqueness_lines
  +:+ String.concat "" size_lines
  +:+ String.concat "" category_lines
  +:+ bin_line.

End program.

(** ** The Solver object of a valid input *)

Section solver_of.
Context (names : list string) (data : DataFrame) (spec : list (string * list rule)).
Context (num_forms items_per_form : Z).

(** The identifiers are strings, the table is rectangular, and every
    attribute of the specification is a column of the table. *)
Definition valid_input : Prop :=
  columns data !! "item_id" = Some (PyStr <$> names) ∧
  DataFrame_wf data ∧
  Forall (λ ar : string * list rule, is_Some (columns data !! ar.1)) spec.

(** The Solver object of a valid input. *)
Definition solver_of : Solver.t :=
  Solver.mk num_forms items_per_form (nrows data) (PyStr <$> names)
    (Z.of_nat (nrows data) * num_forms)
    (list_to_map ((λ i, (i, var_name (default "" (names !! i)) <$> range num_forms))
                    <$> seq 0 (nrows data)))
    (list_to_map ((λ f, (f, (λ id, var_name id f) <$> names)) <$> range num_forms))
    (attribute_of (PyStr <$> names) <$> rules_of data spec)
    (names ≫= λ id, var_name id <$> range num_forms).

End solver_of.

(** ** The lines of a text *)

(** The number of line terminators of a text. *)
Fixpoint count_nl (s : string) : nat :=
  match s with
  | EmptyString => 0%nat
  | String c s' => ((if decide (c = "010"%char) then 1 else 0) + count_nl s')%nat
  end.

Definition newline_free (s : string) : Prop := count_nl s = 0%nat.

(** The lines of a text, without their terminators. *)
Fixpoint lines (s : string) : list string :=
  match s with
  | EmptyString => []
  | String c s' =>
      if decide (c = "010"%char) then "" :: lines s'
      else match lines s' with
           | [] => [String c ""]
           | l :: ls => String c l :: ls
           end
  end.

(** The identifiers and the comparators hold no line terminator. *)
Definition newline_free_input (names : list string) (spec : list (string * list rule)) : Prop :=
  Forall newline_free names ∧
  Forall (λ ar : string * list rule,
    Forall (λ r, newline_free (rule_comparator r)) ar.2) spec.

(** The content of the output file after the encoder ran from [σ]. *)
Definition output (data : DataFrame) (spec : list (string * list rule))
    (num_forms items_per_form : Z) (outfile : string) (σ : State Solver.t) : option string :=
  files (run data spec num_forms items_per_form outfile σ).1 !! outfile.

(** ** The order of the category texts *)

(** The text of one rule for one form: what one call of
    [constraint.as_lpsolve_string(form)] returns. *)
Definition rule_text (names : list string) (form : Z) (cr : list pyval * rule) : string :=
  String.concat "" (rule_lines names form cr).

(** The texts of all rules for all forms, in the order of the two loops of
    [solve]. *)
Definition category_texts (names : list string) (data : DataFrame)
    (spec : list (string * list rule)) (num_forms : Z) : list string :=
  range num_forms ≫= λ form, rule_text names form <$> rules_of data spec.

(** Rule-then-form order: whatever the forms, the text of a rule comes
    before the text of every later rule. *)
Definition rule_major_order (names : list string) (data : DataFrame)
    (spec : list (string * list rule)) (num_forms : Z) : Prop :=
  ∀ (r1 r2 : nat) cr1 cr2 (f1 f2 : Z) (i j : nat),
    (r1 < r2)%nat →
    rules_of data spec !! r1 = Some cr1 → rules_of data spec !! r2 = Some cr2 →
    f1 ∈ range num_forms → f2 ∈ range num_forms →
    category_texts names data spec num_forms !! i = Some (rule_text names f1 cr1) →
    category_texts names data spec num_forms !! j = Some (rule_text names f2 cr2) →
    (i < j)%nat.

(** ** Comparators *)

(** The three comparators of lpsolve that the constants of the module name. *)
Definition recognized (comparator : string) : Prop :=
  comparator = "<=" ∨ comparator = ">=" ∨ comparator = "=".

(** Construction rejects every comparator that is not recognized. *)
Definition rejects_unrecognized : Prop :=
  ∀ classifications comparator constraints ids (σ : State Solver.t),
    ¬ recognized comparator →
    ∃ e, (ConstrainedAttribute.init classifications comparator constraints ids σ).2 = Raise e.

(** ** Lines over arbitrary identifiers *)

(** Rendering succeeds on every list of identifiers, strings or integers,
    and shows every identifier by its text. *)
Definition renders_every_identifier : Prop :=
  ∀ (ids : list pyval) (comparator : string) (form bound : Z),
    Constraint.as_lpsolve_string (Constraint.init ids comparator bound) form
    = Ok (String.concat " + " ((λ v, py_str v +:+ "_" +:+ pretty form) <$> ids)
          +:+ comparator +:+ pretty bound +:+ ";" +:+ nl).

(** ** Names of decision variables *)

(** Synthesis succeeds on every identifier, string or integer, and yields
    the text of the identifier, [_] and the form index. *)
Definition var_for_total : Prop :=
  ∀ (ids : list pyval) (item : nat) (form : Z) (id : pyval),
    ids !! item = Some id →
    Solver._var_for ids item form = Ok (py_str id +:+ "_" +:+ pretty form).

(** ** Inputs of the examples *)

(** The initial state: no object, nothing printed, no file. *)
Definition σ0 : State Solver.t := mkState ∅ "" ∅.

(** Scenario A of the specification: three items, one attribute, one rule
    with one category. *)
Definition scenario_a_data : DataFrame :=
  mkDataFrame 3 (list_to_map
    [("item_id", [PyStr "a"; PyStr "b"; PyStr "c"]);
     ("Content", [PyInt 1; PyInt 2; PyInt 1])]).

Definition scenario_a_spec : list (string * list rule) :=
  [("Content", [mkRule "<=" [(PyInt 1, 1)]])].

(** One rule with two categories, one form. *)
Definition two_category_data : DataFrame :=
  mkDataFrame 2 (list_to_map
    [("item_id", [PyStr "a"; PyStr "b"]);
     ("Content", [PyInt 1; PyInt 2])]).

Definition two_category_spec : list (string * list rule) :=
  [("Content", [mkRule ">=" [(PyInt 1, 0); (PyInt 2, 0)]])].

(** Two rules on one attribute. *)
Definition two_rule_data : DataFrame :=
  mkDataFrame 1 (list_to_map
    [("item_id", [PyStr "a"]);
     ("Content", [PyInt 1])]).

Definition two_rule_spec : list (string * list rule) :=
  [("Content", [mkRule "<=" [(PyInt 1, 5)]; mkRule ">=" [(PyInt 1, 0)]])].

(** A table whose identifiers are integers. *)
Definition integer_id_data : DataFrame :=
  mkDataFrame 1 (list_to_map
    [("item_id", [PyInt 7]);
     ("Content", [PyInt 1])]).

(** A state with an object, printed text and an old output file. *)
Definition σ1 : State Solver.t :=
  mkState {[ 0%nat := Solver.mk 0 0 0 [] 0 ∅ ∅ [] [] ]} "earlier output"
    {[ "run.lp" := "stale" ]}.

(** ** Characters of a text *)

(** The number of occurrences of a character in a text. *)
Fixpoint count_char (c : ascii) (s : string) : nat :=
  match s with
  | EmptyString => 0%nat
  | String x s' => ((if decide (x = c) then 1 else 0) + count_char c s')%nat
  end.

(** ** Objects that [solve] can render *)



(** ** Rules without categories *)

(** The specification without the rules whose bound mapping is empty. *)
Definition prune (spec : list (string * list rule)) : list (string * list rule) :=
  (λ ar : string * list rule, (ar.1, filter (λ r, rule_values r ≠ []) ar.2)) <$> spec.

(** ** The entry point *)

(** The constants [MIN_CONSTRAINT], [MAX_CONSTRAINT] and [EQ_CONSTRAINT]. *)
Definition MIN_CONSTRAINT : string := ">=".
Definition MAX_CONSTRAINT : string := "<=".
Definition EQ_CONSTRAINT : string := "=".

(** The specification that [main] builds when it is given none: at least 0
    and at most 10 items of each of the content categories 1 to 5, at most
    15 of category 3. The two dictionaries of the source have the small
    integers 1 to 5 as keys, which CPython 2 iterates in increasing
    order. *)
Definition default_constraints : list (string * list rule) :=
  [("Content",
    [mkRule MIN_CONSTRAINT
       [(PyInt 1, 0); (PyInt 2, 0); (PyInt 3, 0); (PyInt 4, 0); (PyInt 5, 0)];
     mkRule MAX_CONSTRAINT
       [(PyInt 1, 10); (PyInt 2, 10); (PyInt 3, 15); (PyInt 4, 10); (PyInt 5, 10)]])].

(** [main]. The function [read_csv] stands for [pd.read_csv]: it gives the
    table of a file name, or raises. The test [not constraints] holds for
    [None] and for the empty dictionary. *)
Definition main (read_csv : string → result DataFrame) (item_parameters_file : string)
    (num_forms items_per_form : Z) (constraints : option (list (string * list rule)))
    (outfile : string) : M Solver.t unit :=
  let constraints :=
    match constraints with
    | None | Some [] => default_constraints
    | Some spec => spec
    end in
  do data <- lift (read_csv item_parameters_file);
  do s <- Solver.init data constraints num_forms items_per_form;
  Solver.solve s outfile.

(** * Lemmas *)

(** ** Strings *)

Lemma append_assoc (a b c : string) : (a +:+ b) +:+ c = a +:+ (b +:+ c).
Proof.
  induction a as [|x a IH]; [done|].
  unfold String.append; fold String.append. by rewrite IH.
Qed.

Lemma append_nil_r (a : string) : a +:+ "" = a.
Proof.
  induction a as [|x a IH]; [done|].
  unfold String.append; fold String.append. by rewrite IH.
Qed.

Lemma concat_empty_cons (x : string) (l : list string) :
  String.concat "" (x :: l) = x +:+ String.concat "" l.
Proof. destruct l; simpl; [by rewrite append_nil_r | done]. Qed.

Lemma concat_empty_app (l1 l2 : list string) :
  String.concat "" (l1 ++ l2) = String.concat "" l1 +:+ String.concat "" l2.
Proof.
  induction l1 as [|x l1 IH]; [done|].
  rewrite <- app_comm_cons, !concat_empty_cons, IH. by rewrite append_assoc.
Qed.

Lemma concat_empty_join (ll : list (list string)) :
  String.concat "" (String.concat "" <$> ll) = String.concat "" (mjoin ll).
Proof.
  induction ll as [|l ll IH]; [done|].
  rewrite fmap_cons, concat_empty_cons, IH. simpl. by rewrite concat_empty_app.
Qed.

Lemma concat_empty_bind {A : Type} (f : A → list string) (l : list A) :
  String.concat "" (l ≫= f) = String.concat "" ((λ a, String.concat "" (f a)) <$> l).
Proof.
  induction l as [|a l IH]; [done|].
  by rewrite bind_cons, concat_empty_app, fmap_cons, concat_empty_cons, IH.
Qed.

(** ** Comprehensions that do not raise *)

Lemma traverse_ok {A B : Type} (f : A → result B) (g : A → B) (l : list A) :
  (∀ a, a ∈ l → f a = Ok (g a)) → traverse f l = Ok (g <$> l).
Proof.
  induction l as [|a l IH]; intros Hf; [done|].
  simpl. rewrite (Hf a) by left. simpl.
  rewrite IH; [done|]. intros b Hb. apply Hf. by right.
Qed.

Lemma traverse_seq_ok {A B : Type} (f : nat → result B) (g : A → B) (l : list A) (k : nat) :
  (∀ i x, l !! i = Some x → f (k + i)%nat = Ok (g x)) →
  traverse f (seq k (length l)) = Ok (g <$> l).
Proof.
  revert k. induction l as [|x l IH]; intros k Hf; [done|].
  simpl. rewrite <- (Nat.add_0_r k) at 1. rewrite (Hf 0%nat x) by done. simpl.
  rewrite IH; [done|]. intros i y Hi.
  replace (S k + i)%nat with (k + S i)%nat by lia. by apply Hf.
Qed.

Lemma fmap_seq_lookup {A B : Type} (d : A) (g : A → B) (l : list A) :
  (λ i, g (default d (l !! i))) <$> seq 0 (length l) = g <$> l.
Proof.
  induction l as [|x l IH]; [done|].
  simpl. f_equal. rewrite <- fmap_S_seq, <- list_fmap_compose. exact IH.
Qed.

Lemma lookup_list_to_map_fmap `{Countable K} {V : Type} (f : K → V) (l : list K) (k : K) :
  k ∈ l → (list_to_map ((λ k, (k, f k)) <$> l) : gmap K V) !! k = Some (f k).
Proof.
  induction l as [|a l IH]; intros Hk; [by apply elem_of_nil in Hk|].
  simpl. destruct (decide (a = k)) as [->|Hne].
  - by rewrite lookup_insert_eq.
  - rewrite lookup_insert_ne by done. apply IH.
    apply elem_of_cons in Hk as [->|Hk]; done.
Qed.

(** ** The effect of a statement *)

Section effects.
Context {Obj : Type}.
Implicit Types σ : State Obj.

Lemma state_eta σ : mkState (heap σ) (stdout σ) (files σ) = σ.
Proof. by destruct σ. Qed.

Lemma prints_lift {A : Type} (r : result A) : prints (Obj:=Obj) (lift r) "" r.
Proof. intros σ. unfold lift. by rewrite append_nil_r, state_eta. Qed.

Lemma prints_ret {A : Type} (a : A) : prints (Obj:=Obj) (ret a) "" (Ok a).
Proof. apply (prints_lift (Ok a)). Qed.

Lemma prints_print (s : string) : prints (Obj:=Obj) (print s) (s +:+ nl) (Ok tt).
Proof. by intros σ. Qed.

Lemma prints_bind_ok {A B : Type} (m : M Obj A) (k : A → M Obj B) o1 o2 a r :
  prints m o1 (Ok a) → prints (k a) o2 r → prints (bind m k) (o1 +:+ o2) r.
Proof.
  intros Hm Hk σ. unfold bind. rewrite Hm, Hk. simpl. by rewrite append_assoc.
Qed.

Lemma prints_bind_raise {A B : Type} (m : M Obj A) (k : A → M Obj B) o e :
  prints m o (Raise e) → prints (bind m k) o (Raise e).
Proof. intros Hm σ. unfold bind. by rewrite Hm. Qed.

Lemma prints_bind_lift {A B : Type} (a : A) (k : A → M Obj B) o r :
  prints (k a) o r → prints (bind (lift (Ok a)) k) o r.
Proof. intros Hk σ. unfold bind, lift. apply Hk. Qed.

Lemma prints_bind_ex {A B : Type} (m : M Obj A) (k : A → M Obj B) :
  (∃ o r, prints m o r) → (∀ a, ∃ o r, prints (k a) o r) →
  ∃ o r, prints (bind m k) o r.
Proof.
  intros (o1 & [a|e] & Hm) Hk.
  - destruct (Hk a) as (o2 & r & Ha). eauto using prints_bind_ok.
  - eauto using prints_bind_raise.
Qed.

Lemma writes_lift {A : Type} path (r : result A) : writes (Obj:=Obj) path (lift r) "" r.
Proof.
  intros σ old Hold. unfold lift.
  by rewrite append_nil_r, insert_id, state_eta.
Qed.

Lemma writes_ret {A : Type} path (a : A) : writes (Obj:=Obj) path (ret a) "" (Ok a).
Proof. apply (writes_lift path (Ok a)). Qed.

Lemma writes_write path (s : string) : writes (Obj:=Obj) path (write path s) s (Ok tt).
Proof. intros σ old Hold. unfold write. by rewrite Hold. Qed.

Lemma writes_bind_ok {A B : Type} path (m : M Obj A) (k : A → M Obj B) t1 t2 a r :
  writes path m t1 (Ok a) → writes path (k a) t2 r →
  writes path (bind m k) (t1 +:+ t2) r.
Proof.
  intros Hm Hk σ old Hold. unfold bind. rewrite (Hm σ old Hold).
  rewrite (Hk _ (old +:+ t1)) by (simpl; apply lookup_insert_eq).
  simpl. by rewrite insert_insert_eq, append_assoc.
Qed.

Lemma writes_bind_raise {A B : Type} path (m : M Obj A) (k : A → M Obj B) t e :
  writes path m t (Raise e) → writes path (bind m k) t (Raise e).
Proof. intros Hm σ old Hold. unfold bind. by rewrite (Hm σ old Hold). Qed.

Lemma writes_bind_lift {A B : Type} path (a : A) (k : A → M Obj B) t r :
  writes path (k a) t r → writes path (bind (lift (Ok a)) k) t r.
Proof. intros Hk σ old Hold. unfold bind, lift. by apply Hk. Qed.

Lemma writes_bind_ex {A B : Type} path (m : M Obj A) (k : A → M Obj B) :
  (∃ t r, writes path m t r) → (∀ a, ∃ t r, writes path (k a) t r) →
  ∃ t r, writes path (bind m k) t r.
Proof.
  intros (t1 & [a|e] & Hm) Hk.
  - destruct (Hk a) as (t2 & r & Ha). eauto using writes_bind_ok.
  - eauto using writes_bind_raise.
Qed.

(** A loop whose body writes [g a] at every turn writes the texts in the
    order of the list. *)
Lemma writes_for_ok {A : Type} path (l : list A) (body : A → M Obj unit) (g : A → string) :
  (∀ a, a ∈ l → writes path (body a) (g a) (Ok tt)) →
  writes path (for_ l body) (String.concat "" (g <$> l)) (Ok tt).
Proof.
  induction l as [|a l IH]; intros Hbody.
  - apply writes_ret.
  - rewrite fmap_cons, concat_empty_cons. simpl.
    eapply writes_bind_ok; [apply Hbody; left|].
    apply IH. intros b Hb. apply Hbody. by right.
Qed.

Lemma writes_for_ex {A : Type} path (l : list A) (body : A → M Obj unit) :
  (∀ a, ∃ t r, writes path (body a) t r) →
  ∃ t r, writes path (for_ l body) t r.
Proof.
  intros Hbody. induction l as [|a l IH].
  - eauto using writes_ret.
  - simpl. apply writes_bind_ex; [apply Hbody | intros _; apply IH].
Qed.

Lemma constructs_new (o : Obj) : constructs (new o) "" (Ok o).
Proof. intros σ. unfold new. by rewrite append_nil_r. Qed.

Lemma constructs_bind_ok {A : Type} (m : M Obj A) (k : A → M Obj nat) o1 o2 a r :
  prints m o1 (Ok a) → constructs (k a) o2 r → constructs (bind m k) (o1 +:+ o2) r.
Proof.
  intros Hm Hk σ. unfold bind. rewrite Hm, Hk.
  destruct r; simpl; by rewrite append_assoc.
Qed.

Lemma constructs_bind_raise {A : Type} (m : M Obj A) (k : A → M Obj nat) o e :
  prints m o (Raise e) → constructs (bind m k) o (Raise e).
Proof. intros Hm σ. unfold bind. by rewrite Hm. Qed.

Lemma constructs_bind_lift {A : Type} (a : A) (k : A → M Obj nat) o r :
  constructs (k a) o r → constructs (bind (lift (Ok a)) k) o r.
Proof. intros Hk σ. unfold bind, lift. apply Hk. Qed.

Lemma constructs_bind_ex {A : Type} (m : M Obj A) (k : A → M Obj nat) :
  (∃ o r, prints m o r) → (∀ a, ∃ o r, constructs (k a) o r) →
  ∃ o r, constructs (bind m k) o r.
Proof.
  intros (o1 & [a|e] & Hm) Hk.
  - destruct (Hk a) as (o2 & r & Ha). eauto using constructs_bind_ok.
  - exists o1, (Raise e). by apply constructs_bind_raise.
Qed.

End effects.

(** ** Selection of the items of a category *)

Lemma broadcast_to_same {A : Type} (a : list A) : broadcast_to (length a) a = a.
Proof. by destruct a as [|x [|y a]]. Qed.

Lemma np_where_aligned (cond : list bool) (x y : list Z) :
  length cond = length x → length x = length y →
  np_where cond x y
  = Ok (zip_with (λ (c : bool) (xy : Z * Z), if c then xy.1 else xy.2) cond (zip x y)).
Proof.
  intros Hc Hx. unfold np_where, broadcast_shape.
  rewrite decide_True by done. simpl.
  rewrite decide_True by done. simpl.
  rewrite broadcast_to_same, Hc, broadcast_to_same, Hx, broadcast_to_same.
  done.
Qed.

Lemma where_ones_zeros (cond : list bool) :
  zip_with (λ (c : bool) (xy : Z * Z), if c then xy.1 else xy.2) cond
    (zip (replicate (length cond) 1) (replicate (length cond) 0))
  = (λ c : bool, if c then 1 else 0) <$> cond.
Proof. induction cond as [|c cond IH]; [done|]. simpl. by rewrite IH. Qed.

Lemma mask_of_where (cond : list bool) :
  (λ x : Z, bool_decide (x = 1)) <$> ((λ c : bool, if c then 1 else 0) <$> cond) = cond.
Proof.
  induction cond as [|c cond IH]; [done|].
  rewrite !fmap_cons, IH. by destruct c.
Qed.

Lemma mask_index_aligned {A : Type} (a : list A) (mask : list bool) :
  length mask = length a →
  mask_index a mask = Ok (filter (λ p : A * bool, p.2 = true) (zip a mask)).*1.
Proof.
  intros Hlen. destruct mask as [|b mask]; [by destruct a|].
  unfold mask_index. by rewrite decide_True.
Qed.

Lemma broadcast_to_replicate {A : Type} (n : nat) (x : A) :
  broadcast_to n (replicate n x) = replicate n x.
Proof. by destruct n as [|[|n]]. Qed.

(** With the single value [False] as condition, [np.where] gives the second
    array, whatever its size. *)
Lemma np_where_false (n : nat) :
  np_where [false] (replicate n 1) (replicate n 0) = Ok (replicate n 0).
Proof.
  unfold np_where, broadcast_shape. rewrite !length_replicate.
  rewrite (decide_True (P := n = n)) by done. simpl.
  assert (zip_with (λ (c : bool) (xy : Z * Z), if c then xy.1 else xy.2)
            (replicate n false) (zip (replicate n 1) (replicate n 0))
          = replicate n 0) as Hzip.
  { induction n as [|n IH]; [done|]. simpl. by rewrite IH. }
  destruct (decide (1%nat = n)) as [<-|Hn]; [done|]. simpl.
  by rewrite !broadcast_to_replicate, Hzip.
Qed.

(** A key that the element type of the array does not admit equals no
    cell. *)
Lemma not_comparable_ne (a : list pyval) (key : pyval) :
  comparable a key = false → (λ v, py_eq v key) <$> a = replicate (length a) false.
Proof.
  intros Hcmp.
  assert (Forall (λ v, is_int v ≠ is_int key) a) as Htypes.
  { unfold comparable in Hcmp. destruct key as [s|z].
    - apply negb_false_iff, Is_true_true_2, forallb_True in Hcmp.
      eapply Forall_impl; [exact Hcmp|]. intros [s'|z'] Hv; simpl in *; done.
    - apply negb_false_iff, andb_true_iff in Hcmp as [_ Hcmp].
      apply Is_true_true_2, forallb_True in Hcmp.
      eapply Forall_impl; [exact Hcmp|]. intros [s'|z'] Hv; simpl in *; done. }
  clear Hcmp. induction Htypes as [|v a Hv _ IH]; [done|].
  rewrite fmap_cons, IH. simpl. f_equal.
  unfold py_eq. apply bool_decide_eq_false_2. by intros ->.
Qed.

Lemma mask_select {A : Type} (ids : list A) (column : list pyval) (category : pyval) :
  (filter (λ p : A * bool, p.2 = true)
     (zip ids ((λ v, py_eq v category) <$> column))).*1
  = select ids column category.
Proof.
  unfold select. revert column.
  induction ids as [|x ids IH]; intros [|v column]; try done.
  simpl. destruct (decide (v = category)) as [Hv|Hv].
  - rewrite filter_cons_True
      by (simpl; unfold py_eq; by apply bool_decide_eq_true_2).
    rewrite (filter_cons_True (λ p : A * pyval, p.2 = category)) by done.
    rewrite !fmap_cons. simpl. f_equal. apply IH.
  - rewrite filter_cons_False
      by (simpl; unfold py_eq; rewrite bool_decide_eq_false_2; done).
    rewrite (filter_cons_False (λ p : A * pyval, p.2 = category)) by done.
    apply IH.
Qed.

Lemma select_fmap {A B : Type} (f : A → B) (ids : list A) column category :
  select (f <$> ids) column category = f <$> select ids column category.
Proof.
  unfold select. revert column.
  induction ids as [|x ids IH]; intros [|v column]; try done.
  simpl. rewrite !filter_cons. simpl.
  destruct (decide (v = category)); [|apply IH].
  rewrite !fmap_cons. by rewrite IH.
Qed.

Lemma elem_of_select {A : Type} (ids : list A) column category (x : A) :
  x ∈ select ids column category ↔
  ∃ i, ids !! i = Some x ∧ column !! i = Some category.
Proof.
  unfold select. rewrite list_elem_of_fmap. split.
  - intros ([y v] & -> & Hin). apply list_elem_of_filter in Hin as [Hv Hin].
    simpl in Hv. subst v. apply list_elem_of_lookup in Hin as [i Hi].
    apply lookup_zip_with_Some in Hi as (a & b & [= <- <-] & Ha & Hb). eauto.
  - intros (i & Hx & Hc). exists (x, category). split; [done|].
    apply list_elem_of_filter. split; [done|].
    apply list_elem_of_lookup. exists i.
    apply lookup_zip_with_Some. eauto.
Qed.

(** ** ConstrainedAttribute: the constraints that [__init__] builds *)

Section constrained_attribute.
Context {Obj : Type}.
Context (classifications : list pyval) (comparator : string) (ids : list pyval).

Local Abbreviation constraint_of := (constraint_of classifications comparator ids).
Local Abbreviation log_line := (log_line classifications comparator ids).

Lemma narrow_aligned (category : pyval) :
  length classifications = length ids →
  ConstrainedAttribute.narrow (zip [classifications] [category])
    (replicate (length ids) 0) (replicate (length ids) 1)
  = Ok ((λ c : bool, if c then 1 else 0) <$> ((λ v, py_eq v category) <$> classifications)).
Proof.
  intros Hlen. cbn [zip zip_with ConstrainedAttribute.narrow]. unfold np_eq.
  destruct (comparable classifications category) eqn:Hcmp.
  - rewrite np_where_aligned by (by rewrite ?length_fmap, ?length_replicate).
    simpl. rewrite <- Hlen.
    rewrite <- (length_fmap (λ v, py_eq v category) classifications).
    by rewrite where_ones_zeros.
  - rewrite np_where_false, not_comparable_ne by done. simpl.
    by rewrite fmap_replicate, Hlen.
Qed.

Lemma init_loop_aligned (entries : list (pyval * Z)) (acc : list Constraint.t) :
  length classifications = length ids →
  prints (Obj := Obj)
    (ConstrainedAttribute.init_loop classifications comparator ids entries acc)
    (String.concat "" (log_line <$> entries))
    (Ok (acc ++ (constraint_of <$> entries))).
Proof.
  intros Hlen. revert acc.
  induction entries as [|[category limit] entries IH]; intros acc.
  - simpl. rewrite app_nil_r. apply prints_ret.
  - rewrite !fmap_cons, concat_empty_cons.
    cbn [ConstrainedAttribute.init_loop].
    rewrite narrow_aligned by done.
    apply prints_bind_lift.
    rewrite mask_of_where, mask_index_aligned by (by rewrite length_fmap).
    rewrite mask_select.
    apply prints_bind_lift.
    eapply prints_bind_ok; [apply prints_print|].
    replace (acc ++ constraint_of (category, limit) :: (constraint_of <$> entries))
      with ((acc ++ [constraint_of (category, limit)]) ++ (constraint_of <$> entries))
      by (by rewrite <- app_assoc).
    apply IH.
Qed.

Lemma init_loop_effect (entries : list (pyval * Z)) (acc : list Constraint.t) :
  ∃ out r, prints (Obj := Obj)
    (ConstrainedAttribute.init_loop classifications comparator ids entries acc) out r.
Proof.
  revert acc. induction entries as [|[category limit] entries IH]; intros acc.
  - eauto using prints_ret.
  - cbn [ConstrainedAttribute.init_loop].
    apply prints_bind_ex; [eauto using prints_lift|]. intros items.
    apply prints_bind_ex; [eauto using prints_lift|]. intros chosen.
    apply prints_bind_ex; [eauto using prints_print|]. intros _. apply IH.
Qed.

Lemma init_aligned (entries : list (pyval * Z)) :
  length classifications = length ids →
  prints (Obj := Obj)
    (ConstrainedAttribute.init classifications comparator entries ids)
    (String.concat "" (log_line <$> entries))
    (Ok (ConstrainedAttribute.mk (constraint_of <$> entries))).
Proof.
  intros Hlen. unfold ConstrainedAttribute.init.
  rewrite <- (append_nil_r (String.concat "" _)).
  eapply prints_bind_ok; [by apply init_loop_aligned|]. apply prints_ret.
Qed.

Lemma init_effect (entries : list (pyval * Z)) :
  ∃ out r, prints (Obj := Obj)
    (ConstrainedAttribute.init classifications comparator entries ids) out r.
Proof.
  unfold ConstrainedAttribute.init.
  apply prints_bind_ex; [apply init_loop_effect|]. eauto using prints_ret.
Qed.

End constrained_attribute.

(** ** Solver: the object that [__init__] builds *)

Lemma rules_of_cons data attr rules spec :
  rules_of data ((attr, rules) :: spec)
  = ((λ r, (column data attr, r)) <$> rules) ++ rules_of data spec.
Proof. done. Qed.

Lemma init_rules_effect data ids attr rules acc :
  ∃ out r, prints (Solver.init_rules data ids attr rules acc) out r.
Proof.
  revert acc. induction rules as [|r rules IH]; intros acc.
  - eauto using prints_ret.
  - cbn [Solver.init_rules].
    apply prints_bind_ex; [eauto using prints_lift|]. intros col.
    apply prints_bind_ex; [apply init_effect|]. intros c. apply IH.
Qed.

Lemma init_attributes_effect data ids spec acc :
  ∃ out r, prints (Solver.init_attributes data ids spec acc) out r.
Proof.
  revert acc. induction spec as [|[attr rules] spec IH]; intros acc.
  - eauto using prints_ret.
  - cbn [Solver.init_attributes].
    apply prints_bind_ex; [apply init_rules_effect|]. intros acc'. apply IH.
Qed.

(** Whatever the arguments, the effect of [__init__] does not depend on
    the state it starts from. *)
Lemma solver_init_effect data spec num_forms items_per_form :
  ∃ out r, constructs (Solver.init data spec num_forms items_per_form) out r.
Proof.
  unfold Solver.init.
  apply constructs_bind_ex; [eauto using prints_lift|]. intros ids.
  apply constructs_bind_ex; [eauto using prints_lift|]. intros occ.
  apply constructs_bind_ex; [eauto using prints_lift|]. intros fi.
  apply constructs_bind_ex; [apply init_attributes_effect|]. intros cs.
  apply constructs_bind_ex; [eauto using prints_lift|]. intros vn.
  eauto using constructs_new.
Qed.

Section valid_input.
Context (names : list string) (data : DataFrame) (spec : list (string * list rule)).
Context (num_forms items_per_form : Z).

Local Abbreviation ids := (PyStr <$> names).
Local Abbreviation solver_of := (solver_of names data spec num_forms items_per_form).
Local Abbreviation valid_input := (valid_input names data spec).

Lemma var_for_name i id form :
  names !! i = Some id → Solver._var_for ids i form = Ok (var_name id form).
Proof.
  intros Hi. unfold Solver._var_for. by rewrite list_lookup_fmap, Hi.
Qed.

Lemma init_rules_valid attr col rules acc :
  columns data !! attr = Some col → length col = length ids →
  prints (Solver.init_rules data ids attr rules acc)
    (String.concat "" (rule_log ids <$> ((λ r, (col, r)) <$> rules)))
    (Ok (acc ++ (attribute_of ids <$> ((λ r, (col, r)) <$> rules)))).
Proof.
  intros Hcol Hlen. revert acc. induction rules as [|r rules IH]; intros acc.
  - simpl. rewrite app_nil_r. apply prints_ret.
  - rewrite !fmap_cons, concat_empty_cons. cbn [Solver.init_rules].
    unfold df_getitem. rewrite Hcol. apply prints_bind_lift.
    eapply prints_bind_ok; [by apply init_aligned|].
    replace (acc ++ attribute_of ids (col, r) :: (attribute_of ids <$> ((λ r, (col, r)) <$> rules)))
      with ((acc ++ [attribute_of ids (col, r)]) ++ (attribute_of ids <$> ((λ r, (col, r)) <$> rules)))
      by (by rewrite <- app_assoc).
    apply IH.
Qed.

Lemma init_attributes_valid spec' acc :
  DataFrame_wf data → length names = nrows data →
  (∀ attr rules, (attr, rules) ∈ spec' → is_Some (columns data !! attr)) →
  prints (Solver.init_attributes data ids spec' acc)
    (String.concat "" (rule_log ids <$> rules_of data spec'))
    (Ok (acc ++ (attribute_of ids <$> rules_of data spec'))).
Proof.
  intros Hwf Hlen. revert acc.
  induction spec' as [|[attr rules] spec' IH]; intros acc Hspec.
  - simpl. rewrite app_nil_r. apply prints_ret.
  - rewrite rules_of_cons, !fmap_app, concat_empty_app, app_assoc.
    cbn [Solver.init_attributes].
    destruct (Hspec attr rules) as [col Hcol]; [left|].
    unfold column. rewrite Hcol. simpl.
    eapply prints_bind_ok.
    + apply init_rules_valid; [done|].
      rewrite length_fmap, Hlen. by eapply Hwf.
    + apply IH. intros attr' rules' Hin. eapply Hspec. by right.
Qed.

Lemma valid_length : valid_input → length names = nrows data.
Proof.
  intros (Hids & Hwf & _). rewrite <- (Hwf _ _ Hids). by rewrite length_fmap.
Qed.

(** On a valid input [__init__] builds [solver_of]. *)
Lemma init_valid :
  valid_input →
  constructs (Solver.init data spec num_forms items_per_form)
    (String.concat "" (rule_log ids <$> rules_of data spec))
    (Ok solver_of).
Proof.
  intros Hvalid. pose proof (valid_length Hvalid) as Hlen.
  destruct Hvalid as (Hids & Hwf & Hspec).
  unfold Solver.init, df_attr. rewrite Hids. apply constructs_bind_lift.
  rewrite (traverse_ok _
    (λ i, (i, var_name (default "" (names !! i)) <$> range num_forms))).
  2:{ intros i Hi. apply elem_of_seq in Hi as [_ Hi]. simpl in Hi.
      destruct (lookup_lt_is_Some_2 names i) as [id Hid]; [lia|].
      rewrite (traverse_ok _ (var_name id)); [by rewrite Hid|].
      intros f _. by apply var_for_name. }
  apply constructs_bind_lift.
  rewrite (traverse_ok _ (λ f, (f, (λ id, var_name id f) <$> names))).
  2:{ intros f _. rewrite <- Hlen.
      rewrite (traverse_seq_ok _ (λ id, var_name id f)); [done|].
      intros i id Hid. by apply var_for_name. }
  apply constructs_bind_lift.
  rewrite <- (append_nil_r (String.concat "" _)).
  eapply constructs_bind_ok.
  { apply init_attributes_valid; [done..|].
    intros attr rules Hin. rewrite Forall_forall in Hspec. apply (Hspec _ Hin). }
  rewrite <- Hlen at 1.
  rewrite (traverse_seq_ok _ (λ id, var_name id <$> range num_forms)).
  2:{ intros i id Hid. apply traverse_ok. intros f _. by apply var_for_name. }
  apply constructs_bind_lift.
  rewrite list_join_bind, list_fmap_bind.
  apply constructs_new.
Qed.

End valid_input.

(** ** Rendering *)

Lemma traverse_fmap {A B C : Type} (f : B → result C) (h : A → B) (l : list A) :
  traverse f (h <$> l) = traverse (λ a, f (h a)) l.
Proof.
  induction l as [|a l IH]; [done|].
  rewrite fmap_cons. cbn [traverse]. by rewrite IH.
Qed.

Lemma for_fmap {Obj A B : Type} (h : A → B) (l : list A) (body : B → M Obj unit) :
  for_ (h <$> l) body = for_ l (λ a, body (h a)).
Proof.
  induction l as [|a l IH]; [done|].
  rewrite fmap_cons. cbn [for_]. by rewrite IH.
Qed.

(** The line of a Constraint over string identifiers. *)
Lemma constraint_line (names : list string) (comparator : string) (bound form : Z) :
  Constraint.as_lpsolve_string (Constraint.init (PyStr <$> names) comparator bound) form
  = Ok (String.concat " + " ((λ id, var_name id form) <$> names)
        +:+ comparator +:+ pretty bound +:+ ";" +:+ nl).
Proof.
  unfold Constraint.as_lpsolve_string, Constraint.init.
  cbn [Constraint.ids Constraint.comparator Constraint.constraint].
  rewrite traverse_fmap.
  by rewrite (traverse_ok _ (λ id, var_name id form)).
Qed.

Lemma attribute_lines (names : list string) (form : Z) (cr : list pyval * rule) :
  ConstrainedAttribute.as_lpsolve_string (attribute_of (PyStr <$> names) cr) form
  = Ok (String.concat "" (rule_lines names form cr)).
Proof.
  unfold ConstrainedAttribute.as_lpsolve_string, attribute_of.
  cbn [ConstrainedAttribute.constraints].
  rewrite traverse_fmap.
  rewrite (traverse_ok _ (category_line names form cr)); [done|].
  intros entry _. unfold constraint_of. rewrite select_fmap.
  apply constraint_line.
Qed.

(** [solve] replaces the content of the output file by the objective line
    and the text of [write_constraints], and leaves the rest of the state as
    it is. *)
Lemma solve_writes (s : Solver.t) (path text : string) (r : result unit) :
  writes path (Solver.write_constraints s path) text r →
  ∀ (σ : State Solver.t) (self : nat), heap σ !! self = Some s →
    Solver.solve self path σ
    = (mkState (heap σ) (stdout σ) (<[path := ("min: ;" +:+ nl) +:+ text]> (files σ)), r).
Proof.
  intros Hw σ self Hself. unfold Solver.solve, bind, open_w, write, deref. simpl.
  rewrite lookup_insert_eq. simpl. rewrite Hself.
  rewrite (Hw _ ("" +:+ "min: ;" +:+ nl)) by (simpl; apply lookup_insert_eq).
  simpl. by rewrite !insert_insert_eq.
Qed.

Lemma solve_no_object (path : string) (σ : State Solver.t) (self : nat) :
  heap σ !! self = None →
  Solver.solve self path σ
  = (mkState (heap σ) (stdout σ) (<[path := "min: ;" +:+ nl]> (files σ)), Raise AttributeError).
Proof.
  intros Hself. unfold Solver.solve, bind, open_w, write, deref. simpl.
  rewrite lookup_insert_eq. simpl. rewrite Hself.
  by rewrite !insert_insert_eq.
Qed.

(** Whatever the object, the text that [write_constraints] writes and its
    outcome do not depend on the state. *)
Lemma write_constraints_effect (s : Solver.t) (path : string) :
  ∃ text r, writes path (Solver.write_constraints s path) text r.
Proof.
  unfold Solver.write_constraints.
  apply writes_bind_ex.
  { apply writes_for_ex. intros i.
    apply writes_bind_ex; [eauto using writes_lift|]. eauto using writes_write. }
  intros _. apply writes_bind_ex.
  { apply writes_for_ex. intros f.
    apply writes_bind_ex; [eauto using writes_lift|]. eauto using writes_write. }
  intros _. apply writes_bind_ex.
  { apply writes_for_ex. intros form. apply writes_for_ex. intros c.
    apply writes_bind_ex; [eauto using writes_lift|]. eauto using writes_write. }
  intros _. eauto using writes_write.
Qed.

Section valid_program.
Context (names : list string) (data : DataFrame) (spec : list (string * list rule)).
Context (num_forms items_per_form : Z).

(** On the Solver object of a valid input, [write_constraints] writes the
    four groups of lines of [program]. *)
Lemma write_constraints_valid (path : string) :
  length names = nrows data →
  writes path
    (Solver.write_constraints (solver_of names data spec num_forms items_per_form) path)
    (String.concat "" (uniqueness_lines names num_forms)
     +:+ String.concat "" (size_lines names num_forms items_per_form)
     +:+ String.concat "" (category_lines names data spec num_forms)
     +:+ bin_line names num_forms)
    (Ok tt).
Proof.
  intros Hlen. unfold Solver.write_constraints, solver_of. simpl.
  eapply writes_bind_ok.
  { unfold uniqueness_lines.
    rewrite <- (fmap_seq_lookup ""
      (λ id, Solver.print_constraint (var_name id <$> range num_forms) "<=" 1) names).
    rewrite Hlen. apply writes_for_ok. intros i Hi.
    unfold Solver.getitem.
    rewrite (lookup_list_to_map_fmap
      (λ i, var_name (default "" (names !! i)) <$> range num_forms)) by done.
    apply writes_bind_lift, writes_write. }
  eapply writes_bind_ok.
  { unfold size_lines. apply writes_for_ok. intros f Hf.
    unfold Solver.getitem.
    rewrite (lookup_list_to_map_fmap (λ f, (λ id, var_name id f) <$> names)) by done.
    apply writes_bind_lift, writes_write. }
  eapply writes_bind_ok; [|apply writes_write].
  unfold category_lines. rewrite concat_empty_bind.
  apply writes_for_ok. intros form _.
  rewrite concat_empty_bind, for_fmap.
  apply writes_for_ok. intros cr _.
  rewrite attribute_lines. apply writes_bind_lift, writes_write.
Qed.

End valid_program.

(** ** The run of the encoder on a valid input *)

Lemma run_valid names data spec num_forms items_per_form path (σ : State Solver.t) :
  valid_input names data spec →
  run data spec num_forms items_per_form path σ
  = (mkState
       (<[fresh (dom (heap σ)) := solver_of names data spec num_forms items_per_form]> (heap σ))
       (stdout σ +:+ String.concat "" (rule_log (PyStr <$> names) <$> rules_of data spec))
       (<[path := program names data spec num_forms items_per_form]> (files σ)),
     Ok tt).
Proof.
  intros Hvalid. unfold run, bind.
  rewrite (init_valid names data spec num_forms items_per_form Hvalid σ).
  erewrite solve_writes.
  - done.
  - apply write_constraints_valid. by eapply valid_length.
  - simpl. apply lookup_insert_eq.
Qed.

Lemma output_valid names data spec num_forms items_per_form path (σ : State Solver.t) :
  valid_input names data spec →
  output data spec num_forms items_per_form path σ
  = Some (program names data spec num_forms items_per_form).
Proof.
  intros Hvalid. unfold output. rewrite (run_valid names) by done.
  simpl. apply lookup_insert_eq.
Qed.

(** ** The number of lines of every group *)

Lemma length_bind_sum {A B : Type} (f : A → list B) (l : list A) :
  length (l ≫= f) = sum_list_with (λ a, length (f a)) l.
Proof.
  induction l as [|a l IH]; [done|].
  rewrite bind_cons, length_app, IH. done.
Qed.

Lemma length_bind_const {A B : Type} (f : A → list B) (l : list A) (k : nat) :
  (∀ a, length (f a) = k) → length (l ≫= f) = (length l * k)%nat.
Proof.
  intros Hk. induction l as [|a l IH]; [done|].
  rewrite bind_cons, length_app, IH, Hk. simpl. lia.
Qed.

Lemma length_rules_of data spec : length (rules_of data spec) = rule_count spec.
Proof.
  induction spec as [|[attr rules] spec IH]; [done|].
  rewrite rules_of_cons, length_app, length_fmap, IH. done.
Qed.

Lemma sum_list_with_fmap {A B : Type} (f : B → nat) (g : A → B) (l : list A) :
  sum_list_with f (g <$> l) = sum_list_with (λ a, f (g a)) l.
Proof. induction l as [|a l IH]; [done|]. rewrite fmap_cons. simpl. by rewrite IH. Qed.

Lemma sum_list_with_same {A : Type} (f g : A → nat) (l : list A) :
  (∀ a, f a = g a) → sum_list_with f l = sum_list_with g l.
Proof. intros Hfg. induction l as [|a l IH]; [done|]. simpl. by rewrite Hfg, IH. Qed.

Lemma entries_of_rules data spec :
  sum_list_with (λ cr : list pyval * rule, length (rule_values cr.2)) (rules_of data spec)
  = entry_count spec.
Proof.
  induction spec as [|[attr rules] spec IH]; [done|].
  rewrite rules_of_cons, sum_list_with_app, IH, sum_list_with_fmap. done.
Qed.

Lemma length_uniqueness_lines names num_forms :
  length (uniqueness_lines names num_forms) = length names.
Proof. unfold uniqueness_lines. by rewrite length_fmap. Qed.

Lemma length_size_lines names num_forms items_per_form :
  length (size_lines names num_forms items_per_form) = Z.to_nat num_forms.
Proof. unfold size_lines, range. by rewrite length_fmap, length_seqZ. Qed.

Lemma length_category_lines names data spec num_forms :
  length (category_lines names data spec num_forms)
  = (entry_count spec * Z.to_nat num_forms)%nat.
Proof.
  unfold category_lines.
  rewrite (length_bind_const _ _ (entry_count spec)).
  - unfold range. rewrite length_seqZ. lia.
  - intros form. rewrite length_bind_sum. rewrite <- (entries_of_rules data).
    unfold rule_lines. apply sum_list_with_same. intros cr. by rewrite length_fmap.
Qed.

(** ** The line terminators of the program *)

Lemma count_nl_app (a b : string) : count_nl (a +:+ b) = (count_nl a + count_nl b)%nat.
Proof.
  induction a as [|c a IH]; [done|].
  unfold String.append; fold String.append. simpl. rewrite IH. lia.
Qed.

Lemma count_nl_pretty_N_go (x : N) (s : string) :
  count_nl (pretty_N_go x s) = count_nl s.
Proof.
  revert s. induction (N.lt_wf_0 x) as [x _ IH]; intros s.
  destruct (decide (x = 0)%N) as [->|Hx]; [by rewrite pretty_N_go_0|].
  rewrite pretty_N_go_step by lia.
  rewrite IH by (apply N.div_lt; lia).
  unfold pretty_N_char. by repeat case_match.
Qed.

Lemma newline_free_pretty_N (x : N) : newline_free (pretty x).
Proof.
  unfold newline_free, pretty, pretty_N.
  case_decide; [done|]. by rewrite count_nl_pretty_N_go.
Qed.

Lemma newline_free_pretty_Z (z : Z) : newline_free (pretty z).
Proof.
  destruct z as [|p|p]; [done|apply (newline_free_pretty_N (Npos p))|].
  unfold newline_free, pretty, pretty_Z. rewrite count_nl_app.
  by rewrite (newline_free_pretty_N (Npos p)).
Qed.

Lemma count_nl_concat (sep : string) (l : list string) :
  newline_free sep → count_nl (String.concat sep l) = sum_list_with count_nl l.
Proof.
  intros Hsep. induction l as [|x l IH]; [done|].
  destruct l as [|y l]; [simpl; lia|].
  change (String.concat sep (x :: y :: l))
    with (x +:+ sep +:+ String.concat sep (y :: l)).
  rewrite !count_nl_app, IH, Hsep. simpl. lia.
Qed.

Lemma sum_count_nl_free (l : list string) :
  Forall newline_free l → sum_list_with count_nl l = 0%nat.
Proof. induction 1 as [|x l Hx _ IH]; [done|]. simpl. by rewrite Hx, IH. Qed.

Lemma count_nl_lines (l : list string) :
  Forall (λ s, count_nl s = 1%nat) l → count_nl (String.concat "" l) = length l.
Proof.
  intros Hl. rewrite count_nl_concat by done.
  induction Hl as [|x l Hx _ IH]; [done|]. simpl. by rewrite Hx, IH.
Qed.

Lemma newline_free_var_name (id : string) (form : Z) :
  newline_free id → newline_free (var_name id form).
Proof.
  intros Hid. unfold newline_free, var_name.
  by rewrite !count_nl_app, Hid, newline_free_pretty_Z.
Qed.

Lemma count_nl_constraint (vars : list string) (comparator : string) (total : Z) :
  Forall newline_free vars → newline_free comparator →
  count_nl (String.concat " + " vars +:+ comparator +:+ pretty total +:+ ";" +:+ nl) = 1%nat.
Proof.
  intros Hvars Hcmp.
  rewrite !count_nl_app, count_nl_concat, sum_count_nl_free, Hcmp,
    newline_free_pretty_Z by done.
  done.
Qed.

Lemma newline_free_select (names : list string) column category :
  Forall newline_free names → Forall newline_free (select names column category).
Proof.
  rewrite !Forall_forall. intros Hnames x Hx.
  apply elem_of_select in Hx as (i & Hi & _).
  by eapply Hnames, list_elem_of_lookup_2.
Qed.

Lemma elem_of_rules_of data spec (cr : list pyval * rule) :
  cr ∈ rules_of data spec → ∃ attr rules, (attr, rules) ∈ spec ∧ cr.2 ∈ rules.
Proof.
  unfold rules_of. rewrite list_elem_of_bind.
  intros ([attr rules] & Hcr & Hin). apply list_elem_of_fmap in Hcr as (r & -> & Hr).
  eauto.
Qed.

Section line_count.
Context (names : list string) (data : DataFrame) (spec : list (string * list rule)).
Context (num_forms items_per_form : Z).
Context (Hfree : newline_free_input names spec).

Lemma uniqueness_lines_single :
  Forall (λ s, count_nl s = 1%nat) (uniqueness_lines names num_forms).
Proof.
  destruct Hfree as [Hnames _]. unfold uniqueness_lines.
  rewrite Forall_fmap. eapply Forall_impl; [exact Hnames|].
  intros id Hid. simpl. apply count_nl_constraint; [|done].
  rewrite Forall_fmap. apply Forall_true. intros f.
  by apply newline_free_var_name.
Qed.

Lemma size_lines_single :
  Forall (λ s, count_nl s = 1%nat) (size_lines names num_forms items_per_form).
Proof.
  destruct Hfree as [Hnames _]. unfold size_lines.
  rewrite Forall_fmap. apply Forall_true. intros f. simpl.
  apply count_nl_constraint; [|done].
  rewrite Forall_fmap. eapply Forall_impl; [exact Hnames|].
  intros id Hid. by apply newline_free_var_name.
Qed.

Lemma category_lines_single :
  Forall (λ s, count_nl s = 1%nat) (category_lines names data spec num_forms).
Proof.
  destruct Hfree as [Hnames Hcmp]. unfold category_lines.
  apply Forall_bind, Forall_true. intros form. simpl.
  apply Forall_bind, Forall_forall. intros cr Hcr. simpl.
  apply elem_of_rules_of in Hcr as (attr & rules & Hin & Hr).
  unfold rule_lines. rewrite Forall_fmap. apply Forall_true. intros entry. simpl.
  unfold category_line. apply count_nl_constraint.
  2:{ rewrite Forall_forall in Hcmp. specialize (Hcmp _ Hin).
      rewrite Forall_forall in Hcmp. by apply Hcmp. }
  rewrite Forall_fmap. eapply Forall_impl; [by apply newline_free_select|].
  intros id Hid. by apply newline_free_var_name.
Qed.

Lemma bin_line_single : count_nl (bin_line names num_forms) = 1%nat.
Proof.
  destruct Hfree as [Hnames _]. unfold bin_line.
  rewrite !count_nl_app, count_nl_concat, sum_count_nl_free; [done| |done].
  apply Forall_bind. eapply Forall_impl; [exact Hnames|].
  intros id Hid. simpl. rewrite Forall_fmap. apply Forall_true. intros f.
  by apply newline_free_var_name.
Qed.

(** The program has one objective line, one line per element of the
    three groups, and one declaration line. *)
Lemma program_line_count :
  count_nl (program names data spec num_forms items_per_form)
  = (2 + length names + Z.to_nat num_forms + entry_count spec * Z.to_nat num_forms)%nat.
Proof.
  unfold program. rewrite !count_nl_app.
  rewrite (count_nl_lines _ uniqueness_lines_single).
  rewrite (count_nl_lines _ size_lines_single).
  rewrite (count_nl_lines _ category_lines_single).
  rewrite bin_line_single, length_uniqueness_lines, length_size_lines,
    length_category_lines.
  simpl. lia.
Qed.

End line_count.

(** ** The position of a category text *)

Lemma lookup_bind_const {A B : Type} (f : A → list B) (l : list A) (k i j : nat) (x : A) :
  (∀ a, length (f a) = k) → l !! i = Some x → (j < k)%nat →
  (l ≫= f) !! (i * k + j)%nat = f x !! j.
Proof.
  intros Hk. revert i. induction l as [|a l IH]; intros i Hi Hj; [done|].
  rewrite bind_cons. destruct i as [|i].
  - injection Hi as ->. simpl. apply lookup_app_l. by rewrite Hk.
  - rewrite lookup_app_r by (rewrite Hk; lia).
    rewrite Hk. replace (S i * k + j - k)%nat with (i * k + j)%nat by lia.
    by apply IH.
Qed.

Lemma category_texts_lookup names data spec num_forms (f r : nat) cr :
  Z.of_nat f < num_forms → rules_of data spec !! r = Some cr →
  category_texts names data spec num_forms !! (f * rule_count spec + r)%nat
  = Some (rule_text names (Z.of_nat f) cr).
Proof.
  intros Hf Hr. unfold category_texts.
  rewrite (lookup_bind_const _ _ (rule_count spec) f r (Z.of_nat f)).
  - by rewrite list_lookup_fmap, Hr.
  - intros form. by rewrite length_fmap, length_rules_of.
  - unfold range. by rewrite lookup_seqZ_lt.
  - rewrite <- (length_rules_of data). by eapply lookup_lt_Some.
Qed.

Lemma length_category_texts names data spec num_forms :
  length (category_texts names data spec num_forms)
  = (Z.to_nat num_forms * rule_count spec)%nat.
Proof.
  unfold category_texts. rewrite (length_bind_const _ _ (rule_count spec)).
  - unfold range. by rewrite length_seqZ.
  - intros form. by rewrite length_fmap, length_rules_of.
Qed.

Lemma concat_category_texts names data spec num_forms :
  String.concat "" (category_texts names data spec num_forms)
  = String.concat "" (category_lines names data spec num_forms).
Proof.
  unfold category_texts, category_lines. rewrite !concat_empty_bind.
  f_equal. apply list_fmap_ext. intros _ form _.
  by rewrite concat_empty_bind.
Qed.

(** ** The effect of [solve] on any object *)

Lemma solve_effect (s : Solver.t) (path : string) :
  ∃ text r, ∀ (σ : State Solver.t) (self : nat), heap σ !! self = Some s →
    Solver.solve self path σ
    = (mkState (heap σ) (stdout σ) (<[path := text]> (files σ)), r).
Proof.
  destruct (write_constraints_effect s path) as (text & r & Hw).
  exists (("min: ;" +:+ nl) +:+ text), r. intros σ self Hself.
  by apply (solve_writes s).
Qed.

Lemma solve_idempotent (σ : State Solver.t) (self : nat) (path : string) :
  heap (Solver.solve self path σ).1 = heap σ ∧
  stdout (Solver.solve self path σ).1 = stdout σ ∧
  Solver.solve self path (Solver.solve self path σ).1 = Solver.solve self path σ.
Proof.
  destruct (heap σ !! self) as [s|] eqn:Hself.
  - destruct (solve_effect s path) as (text & r & Hsolve).
    rewrite (Hsolve σ self Hself). simpl. split; [done|]. split; [done|].
    rewrite (Hsolve _ self) by done. simpl. by rewrite insert_insert_eq.
  - rewrite (solve_no_object path σ self Hself). simpl.
    split; [done|]. split; [done|].
    rewrite solve_no_object by done. simpl. by rewrite insert_insert_eq.
Qed.

(** The outcome of a run and the text it leaves in the output file are
    functions of the arguments of the encoder. *)
Lemma run_effect data spec num_forms items_per_form path :
  ∃ (r : result unit) (text : option string), ∀ σ : State Solver.t,
    (run data spec num_forms items_per_form path σ).2 = r ∧
    match text with
    | Some t => output data spec num_forms items_per_form path σ = Some t
    | None => ∃ e, (Solver.init data spec num_forms items_per_form σ).2 = Raise e
    end.
Proof.
  destruct (solver_init_effect data spec num_forms items_per_form)
    as (out & [s|e] & Hinit).
  - destruct (solve_effect s path) as (text & r & Hsolve).
    exists r, (Some text). intros σ. unfold output, run, bind.
    rewrite (Hinit σ). rewrite Hsolve by (simpl; apply lookup_insert_eq).
    simpl. split; [done|]. apply lookup_insert_eq.
  - exists (Raise e), None. intros σ. unfold run, bind.
    rewrite (Hinit σ). simpl. eauto.
Qed.

(** ** MultiConstrainedAttribute on two items or more *)

Lemma np_eq_comparable (a : list pyval) (key : pyval) :
  comparable a key = true → np_eq a key = (λ v, py_eq v key) <$> a.
Proof. intros Hcmp. unfold np_eq. by rewrite Hcmp. Qed.

Lemma multi_init_raises (first : list pyval) (rest : list (list pyval))
    (comparator : string) (key : pyval) (category : list pyval) (limit : Z)
    (entries : list (list pyval * Z)) (ids : list pyval) :
  (2 ≤ length first)%nat → comparable first key = true →
  MultiConstrainedAttribute.init (first :: rest) comparator
    ((key :: category, limit) :: entries) ids
  = Raise ValueError.
Proof.
  intros Hlen Hcmp.
  unfold MultiConstrainedAttribute.init.
  cbn [MultiConstrainedAttribute.init_loop length seq MultiConstrainedAttribute.all_equal].
  simpl lookup. cbn [mbind result_bind]. rewrite np_eq_comparable by done.
  destruct first as [|v1 [|v2 first]]; simpl in Hlen; [lia..|]. done.
Qed.

(** ** Disjoint selections *)

Lemma select_disjoint {A : Type} (ids : list A) column (c1 c2 : pyval) (x : A) :
  NoDup ids → c1 ≠ c2 →
  x ∈ select ids column c1 → x ∉ select ids column c2.
Proof.
  intros Hnd Hne H1 H2.
  apply elem_of_select in H1 as (i & Hi & Hc1).
  apply elem_of_select in H2 as (j & Hj & Hc2).
  assert (i = j) as -> by (by eapply NoDup_lookup).
  congruence.
Qed.

(** * Properties of the encoder *)

(** A closed decidable proposition, by evaluation. *)
Ltac by_evaluation :=
  match goal with |- ?P => apply (bool_decide_unpack P); vm_compute; exact I end.

Lemma scenario_a_valid : valid_input ["a"; "b"; "c"] scenario_a_data scenario_a_spec.
Proof. unfold valid_input, DataFrame_wf. by_evaluation. Qed.

(** C1 (amended). For every valid input the encoder succeeds and the text of
    the output file is the objective line, one uniqueness line per item,
    one size line per form, the category lines and the declaration line.
    The number of uniqueness lines is the item count and the number of size
    lines is the form count. The number of category lines is the number of
    (category, bound) entries of all rules of all attributes, times the
    form count. When no identifier and no comparator holds a line
    terminator, each of these is one line of the text, and the text has two
    more lines. *)
Theorem constraint_counts (names : list string) (data : DataFrame)
    (spec : list (string * list rule)) (num_forms items_per_form : Z)
    (path : string) (σ : State Solver.t) :
  valid_input names data spec →
  (run data spec num_forms items_per_form path σ).2 = Ok tt ∧
  output data spec num_forms items_per_form path σ
  = Some (("min: ;" +:+ nl)
          +:+ String.concat "" (uniqueness_lines names num_forms)
          +:+ String.concat "" (size_lines names num_forms items_per_form)
          +:+ String.concat "" (category_lines names data spec num_forms)
          +:+ bin_line names num_forms) ∧
  length (uniqueness_lines names num_forms) = nrows data ∧
  length (size_lines names num_forms items_per_form) = Z.to_nat num_forms ∧
  length (category_lines names data spec num_forms)
  = (entry_count spec * Z.to_nat num_forms)%nat ∧
  (newline_free_input names spec →
   Forall (λ s, count_nl s = 1%nat)
     (uniqueness_lines names num_forms
      ++ size_lines names num_forms items_per_form
      ++ category_lines names data spec num_forms) ∧
   count_nl (program names data spec num_forms items_per_form)
   = (2 + nrows data + Z.to_nat num_forms + entry_count spec * Z.to_nat num_forms)%nat).
Proof.
  intros Hvalid. pose proof (valid_length names data spec Hvalid) as Hlen.
  split; [by rewrite (run_valid names)|].
  split; [by rewrite (output_valid names)|].
  split; [by rewrite length_uniqueness_lines|].
  split; [apply length_size_lines|].
  split; [apply length_category_lines|].
  intros Hfree. split.
  - rewrite !Forall_app. repeat split.
    + by eapply uniqueness_lines_single.
    + by eapply size_lines_single.
    + by eapply category_lines_single.
  - rewrite <- Hlen. by apply program_line_count.
Qed.

Lemma constraint_counts_witness :
  valid_input ["a"; "b"; "c"] scenario_a_data scenario_a_spec ∧
  length (category_lines ["a"; "b"; "c"] scenario_a_data scenario_a_spec 2) = 2%nat.
Proof.
  split; [exact scenario_a_valid|].
  exact (proj1 (proj2 (proj2 (proj2 (proj2
    (constraint_counts ["a"; "b"; "c"] scenario_a_data scenario_a_spec 2 1 "run.lp" σ0
       scenario_a_valid)))))).
Defined.

(** C1, counterexample. One rule with two categories and one form: the
    program has two category lines, and the number of rules times the
    number of forms is one. *)
Lemma category_count_counterexample :
  lines <$> output two_category_data two_category_spec 1 1 "run.lp" σ0
  = Some ["min: ;"; "a_0<=1;"; "b_0<=1;"; "a_0 + b_0=1;";
          "a_0>=0;"; "b_0>=0;"; "bin a_0, b_0;"] ∧
  category_lines ["a"; "b"] two_category_data two_category_spec 1
  = ["a_0>=0;" +:+ nl; "b_0>=0;" +:+ nl] ∧
  (rule_count two_category_spec * Z.to_nat 1)%nat = 1%nat ∧
  length (category_lines ["a"; "b"] two_category_data two_category_spec 1)
  ≠ (rule_count two_category_spec * Z.to_nat 1)%nat.
Proof.
  split; [by vm_compute|]. split; [by vm_compute|]. split; [by vm_compute|].
  vm_compute. lia.
Qed.

Lemma two_rule_valid : valid_input ["a"] two_rule_data two_rule_spec.
Proof. unfold valid_input, DataFrame_wf. by_evaluation. Qed.

(** C2 (amended). The category texts are written in form-then-rule order:
    with [R] rules, the text of rule [r] for form [f] is the text number
    [f * R + r] of the category part of the output file. So all texts of a
    form come before all texts of every later form, and within a form the
    rules keep the order of the specification. *)
Theorem category_texts_form_major (names : list string) (data : DataFrame)
    (spec : list (string * list rule)) (num_forms items_per_form : Z)
    (path : string) (σ : State Solver.t) :
  valid_input names data spec →
  output data spec num_forms items_per_form path σ
  = Some (("min: ;" +:+ nl)
          +:+ String.concat "" (uniqueness_lines names num_forms)
          +:+ String.concat "" (size_lines names num_forms items_per_form)
          +:+ String.concat "" (category_texts names data spec num_forms)
          +:+ bin_line names num_forms) ∧
  length (category_texts names data spec num_forms)
  = (Z.to_nat num_forms * rule_count spec)%nat ∧
  (∀ (f r : nat) cr,
     Z.of_nat f < num_forms → rules_of data spec !! r = Some cr →
     category_texts names data spec num_forms !! (f * rule_count spec + r)%nat
     = Some (rule_text names (Z.of_nat f) cr)) ∧
  (∀ f1 r1 f2 r2 : nat,
     (f1 < f2)%nat → (r1 < rule_count spec)%nat → (r2 < rule_count spec)%nat →
     (f1 * rule_count spec + r1 < f2 * rule_count spec + r2)%nat).
Proof.
  intros Hvalid.
  split; [by rewrite (output_valid names), concat_category_texts|].
  split; [apply length_category_texts|].
  split; [intros f r cr; apply category_texts_lookup|].
  intros f1 r1 f2 r2 Hf H1 H2. nia.
Qed.

Lemma category_texts_form_major_witness :
  valid_input ["a"] two_rule_data two_rule_spec ∧
  category_texts ["a"] two_rule_data two_rule_spec 2 !! 2%nat
  = Some (rule_text ["a"] 1 ([PyInt 1], mkRule "<=" [(PyInt 1, 5)])).
Proof.
  split; [exact two_rule_valid|].
  exact (proj1 (proj2 (proj2
    (category_texts_form_major ["a"] two_rule_data two_rule_spec 2 1 "run.lp" σ0
       two_rule_valid))) 1%nat 0%nat _ eq_refl eq_refl).
Defined.

(** C2, counterexample. Two rules and two forms: the text of the first rule
    for form 1 is written after the text of the second rule for form 0. *)
Lemma rule_major_counterexample :
  lines <$> output two_rule_data two_rule_spec 2 1 "run.lp" σ0
  = Some ["min: ;"; "a_0 + a_1<=1;"; "a_0=1;"; "a_1=1;";
          "a_0<=5;"; "a_0>=0;"; "a_1<=5;"; "a_1>=0;"; "bin a_0, a_1;"] ∧
  ¬ rule_major_order ["a"] two_rule_data two_rule_spec 2.
Proof.
  split; [by vm_compute|]. intros Horder.
  specialize (Horder 0%nat 1%nat
    ([PyInt 1], mkRule "<=" [(PyInt 1, 5)]) ([PyInt 1], mkRule ">=" [(PyInt 1, 0)])
    1 0 2%nat 1%nat).
  assert (2 < 1)%nat; [|lia].
  apply Horder; try (by vm_compute); try lia.
  - unfold range. apply elem_of_seqZ. lia.
  - unfold range. apply elem_of_seqZ. lia.
Qed.

(** C3 (amended). Scenario A: the encoder writes exactly the objective
    line, three uniqueness lines, two size lines, the category line
    [a_0 + c_0<=1;] for form 0 and [a_1 + c_1<=1;] for form 1, and the
    declaration line [bin a_0, a_1, b_0, b_1, c_0, c_1;], whose variables
    are in item-major order; every line ends with a line terminator. *)
Theorem scenario_a_program :
  (run scenario_a_data scenario_a_spec 2 1 "run.lp" σ0).2 = Ok tt ∧
  output scenario_a_data scenario_a_spec 2 1 "run.lp" σ0
  = Some ("min: ;" +:+ nl
          +:+ "a_0 + a_1<=1;" +:+ nl
          +:+ "b_0 + b_1<=1;" +:+ nl
          +:+ "c_0 + c_1<=1;" +:+ nl
          +:+ "a_0 + b_0 + c_0=1;" +:+ nl
          +:+ "a_1 + b_1 + c_1=1;" +:+ nl
          +:+ "a_0 + c_0<=1;" +:+ nl
          +:+ "a_1 + c_1<=1;" +:+ nl
          +:+ "bin a_0, a_1, b_0, b_1, c_0, c_1;" +:+ nl) ∧
  lines <$> output scenario_a_data scenario_a_spec 2 1 "run.lp" σ0
  = Some ["min: ;";
          "a_0 + a_1<=1;"; "b_0 + b_1<=1;"; "c_0 + c_1<=1;";
          "a_0 + b_0 + c_0=1;"; "a_1 + b_1 + c_1=1;";
          "a_0 + c_0<=1;"; "a_1 + c_1<=1;";
          "bin a_0, a_1, b_0, b_1, c_0, c_1;"] ∧
  length (uniqueness_lines ["a"; "b"; "c"] 2) = 3%nat ∧
  length (size_lines ["a"; "b"; "c"] 2 1) = 2%nat ∧
  category_lines ["a"; "b"; "c"] scenario_a_data scenario_a_spec 2
  = ["a_0 + c_0<=1;" +:+ nl; "a_1 + c_1<=1;" +:+ nl] ∧
  bin_line ["a"; "b"; "c"] 2 = "bin a_0, a_1, b_0, b_1, c_0, c_1;" +:+ nl.
Proof. repeat split; by vm_compute. Qed.

(** C3, counterexample. The output of scenario A is not the text with the
    form-major declaration line [bin a_0, b_0, c_0, a_1, b_1, c_1;]: the
    last line of the output is the item-major line, and the form-major line
    is no line of the output. *)
Lemma scenario_a_counterexample :
  output scenario_a_data scenario_a_spec 2 1 "run.lp" σ0
  ≠ Some ("min: ;" +:+ nl
          +:+ "a_0 + a_1<=1;" +:+ nl
          +:+ "b_0 + b_1<=1;" +:+ nl
          +:+ "c_0 + c_1<=1;" +:+ nl
          +:+ "a_0 + b_0 + c_0=1;" +:+ nl
          +:+ "a_1 + b_1 + c_1=1;" +:+ nl
          +:+ "a_0 + c_0<=1;" +:+ nl
          +:+ "a_1 + c_1<=1;" +:+ nl
          +:+ "bin a_0, b_0, c_0, a_1, b_1, c_1;" +:+ nl) ∧
  ∃ out, lines <$> output scenario_a_data scenario_a_spec 2 1 "run.lp" σ0 = Some out ∧
    last out = Some "bin a_0, a_1, b_0, b_1, c_0, c_1;" ∧
    "bin a_0, b_0, c_0, a_1, b_1, c_1;" ∉ out.
Proof.
  split; [vm_compute; discriminate|].
  eexists. split; [by vm_compute|]. split; [done|].
  by_evaluation.
Qed.

(** C4. The multi-attribute variant on the table of scenario A, with one
    attribute: the built-in [all] asks the array of three comparisons for
    its truth value, and construction ends with [ValueError]; no Constraint
    is built. The single-attribute variant selects the items [a] and [c] on
    the same table. *)
Theorem multi_attribute_raises :
  MultiConstrainedAttribute.init [[PyInt 1; PyInt 2; PyInt 1]] "<=" [([PyInt 1], 1)]
    [PyStr "a"; PyStr "b"; PyStr "c"]
  = Raise ValueError ∧
  (ConstrainedAttribute.init [PyInt 1; PyInt 2; PyInt 1] "<=" [(PyInt 1, 1)]
     [PyStr "a"; PyStr "b"; PyStr "c"] σ0).2
  = Ok (ConstrainedAttribute.mk [Constraint.mk [PyStr "a"; PyStr "c"] "<=" 1]).
Proof. split; by vm_compute. Qed.

(** C5. On positionally aligned arguments the single-attribute variant
    succeeds and builds one Constraint per entry of the bound mapping, in
    the order of the mapping, over the identifiers of the items whose
    classification is the category of the entry. With unique identifiers,
    the item sets of two distinct categories are disjoint; an identifier is
    in some Constraint exactly when the classification of its item is a key
    of the mapping; and an item whose classification is no key is in no
    Constraint. *)
Theorem constrained_attribute_partition (classifications : list pyval)
    (comparator : string) (constraints : list (pyval * Z)) (ids : list pyval)
    (σ : State Solver.t) :
  length classifications = length ids →
  ∃ self,
    (ConstrainedAttribute.init classifications comparator constraints ids σ).2 = Ok self ∧
    ConstrainedAttribute.constraints self
    = (λ entry : pyval * Z,
         Constraint.mk (select ids classifications entry.1) comparator entry.2)
      <$> constraints ∧
    (∀ category x,
       x ∈ select ids classifications category ↔
       ∃ i, ids !! i = Some x ∧ classifications !! i = Some category) ∧
    (NoDup ids → ∀ c1 c2 x, c1 ≠ c2 →
       x ∈ select ids classifications c1 → x ∉ select ids classifications c2) ∧
    (∀ x, (∃ c, c ∈ ConstrainedAttribute.constraints self ∧ x ∈ Constraint.ids c) ↔
          ∃ i category, ids !! i = Some x ∧ classifications !! i = Some category ∧
                        category ∈ constraints.*1) ∧
    (NoDup ids → ∀ i x category,
       ids !! i = Some x → classifications !! i = Some category →
       category ∉ constraints.*1 →
       ∀ c, c ∈ ConstrainedAttribute.constraints self → x ∉ Constraint.ids c).
Proof.
  intros Hlen.
  pose proof (init_aligned (Obj:=Solver.t) classifications comparator ids constraints Hlen σ)
    as Hinit.
  eexists. rewrite Hinit. simpl. split; [done|]. split; [done|].
  split; [intros category x; apply elem_of_select|].
  split; [intros Hnd c1 c2 x; by apply select_disjoint|].
  assert (∀ x, (∃ c, c ∈ constraint_of classifications comparator ids <$> constraints
                     ∧ x ∈ Constraint.ids c) ↔
               ∃ i category, ids !! i = Some x ∧ classifications !! i = Some category ∧
                             category ∈ constraints.*1) as Hunion.
  { intros x. split.
    - intros (c & Hc & Hx). apply list_elem_of_fmap in Hc as ([category limit] & -> & Hin).
      simpl in Hx. apply elem_of_select in Hx as (i & Hi & Hcat).
      exists i, category. split; [done|]. split; [done|].
      apply list_elem_of_fmap. by exists (category, limit).
    - intros (i & category & Hi & Hcat & Hkey).
      apply list_elem_of_fmap in Hkey as ([category' limit] & -> & Hin).
      exists (constraint_of classifications comparator ids (category', limit)).
      split; [apply list_elem_of_fmap; eauto|].
      simpl. apply elem_of_select. eauto. }
  split; [exact Hunion|].
  intros Hnd i x category Hi Hcat Hkey c Hc Hx.
  destruct (proj1 (Hunion x)) as (j & category' & Hj & Hcat' & Hkey'); [eauto|].
  assert (i = j) as -> by (by eapply NoDup_lookup).
  congruence.
Qed.

Lemma constrained_attribute_partition_witness :
  ∃ self,
    (ConstrainedAttribute.init [PyInt 1; PyInt 2; PyInt 1] "<=" [(PyInt 1, 1); (PyInt 2, 3)]
       [PyStr "a"; PyStr "b"; PyStr "c"] σ0).2 = Ok self ∧
    ConstrainedAttribute.constraints self
    = [Constraint.mk [PyStr "a"; PyStr "c"] "<=" 1; Constraint.mk [PyStr "b"] "<=" 3].
Proof.
  destruct (constrained_attribute_partition [PyInt 1; PyInt 2; PyInt 1] "<="
              [(PyInt 1, 1); (PyInt 2, 3)] [PyStr "a"; PyStr "b"; PyStr "c"] σ0 eq_refl)
    as (self & Hinit & Hcs & _).
  exists self. split; [exact Hinit|]. rewrite Hcs. reflexivity.
Defined.

(** C6 (amended). For every list of string identifiers, comparator, form
    index and bound, the line of a Constraint is the identifiers, each
    followed by [_] and the form index, joined by [ + ], then the comparator
    as it is, the bound, a semicolon and a line terminator. For the empty
    list the line is the comparator, the bound, the semicolon and the
    terminator. For a list of identifiers of any kind, rendering gives that
    line when no identifier is an integer, and raises [TypeError] when one
    is. *)
Theorem constraint_rendering (names : list string) (comparator : string) (form bound : Z) :
  Constraint.as_lpsolve_string (Constraint.init (PyStr <$> names) comparator bound) form
  = Ok (String.concat " + " ((λ id, id +:+ "_" +:+ pretty form) <$> names)
        +:+ comparator +:+ pretty bound +:+ ";" +:+ nl) ∧
  Constraint.as_lpsolve_string (Constraint.init [] comparator bound) form
  = Ok (comparator +:+ pretty bound +:+ ";" +:+ nl) ∧
  ∀ ids : list pyval,
    Constraint.as_lpsolve_string (Constraint.init ids comparator bound) form
    = if existsb is_int ids then Raise TypeError
      else Ok (String.concat " + " ((λ v, py_str v +:+ "_" +:+ pretty form) <$> ids)
               +:+ comparator +:+ pretty bound +:+ ";" +:+ nl).
Proof.
  split; [|split; [done|]].
  - rewrite constraint_line. do 3 f_equal.
    apply list_fmap_ext. intros _ id _. apply append_assoc.
  - intros ids. unfold Constraint.as_lpsolve_string, Constraint.init.
    cbn [Constraint.ids Constraint.comparator Constraint.constraint].
    assert (traverse (λ x, a ← py_add_str x "_"; Ok (a +:+ pretty form)) ids
            = if existsb is_int ids then Raise TypeError
              else Ok ((λ v, py_str v +:+ "_" +:+ pretty form) <$> ids)) as ->.
    { induction ids as [|[name|z] ids IH]; [done| |done].
      rewrite fmap_cons. cbn [traverse existsb is_int orb]. rewrite IH.
      cbn [py_add_str py_str mbind result_bind].
      destruct (existsb is_int ids); [done|]. by rewrite append_assoc. }
    by destruct (existsb is_int ids).
Qed.

(** C6, counterexample. A Constraint over the integer identifiers 5 and 7
    has no line: rendering raises [TypeError], because the identifiers are
    joined to the text [_] without conversion. *)
Lemma constraint_rendering_counterexample :
  Constraint.as_lpsolve_string (Constraint.init [PyInt 5; PyInt 7] "<=" 1) 2
  = Raise TypeError ∧
  ¬ renders_every_identifier.
Proof.
  split; [done|]. intros Hrenders.
  specialize (Hrenders [PyInt 5; PyInt 7] "<=" 2 1). discriminate Hrenders.
Qed.

(** C7 (amended). Construction does not look at the comparator: for every
    comparator string, recognized or not, construction on aligned arguments
    succeeds, every Constraint stores the comparator as it is, and the line
    of every Constraint over string identifiers shows it as it is. *)
Theorem comparator_unchecked (classifications : list pyval) (comparator : string)
    (constraints : list (pyval * Z)) (names : list string) (σ : State Solver.t) :
  length classifications = length names →
  ∃ self,
    (ConstrainedAttribute.init classifications comparator constraints (PyStr <$> names) σ).2
    = Ok self ∧
    Forall (λ c, Constraint.comparator c = comparator)
      (ConstrainedAttribute.constraints self) ∧
    ∀ form, ∃ rendered,
      traverse (λ c, Constraint.as_lpsolve_string c form)
        (ConstrainedAttribute.constraints self) = Ok rendered ∧
      Forall2 (λ (entry : pyval * Z) (line : string),
          line = String.concat " + "
                   ((λ id, var_name id form) <$> select names classifications entry.1)
                 +:+ comparator +:+ pretty entry.2 +:+ ";" +:+ nl)
        constraints rendered.
Proof.
  intros Hlen.
  assert (length classifications = length (PyStr <$> names)) as Hlen'
    by (by rewrite length_fmap).
  pose proof (init_aligned (Obj:=Solver.t) classifications comparator (PyStr <$> names)
                constraints Hlen' σ) as Hinit.
  eexists. rewrite Hinit. split; [reflexivity|].
  cbn [ConstrainedAttribute.constraints]. split.
  - rewrite Forall_fmap. by apply Forall_true.
  - intros form. eexists. split.
    + rewrite traverse_fmap. apply traverse_ok. intros entry _.
      unfold constraint_of. rewrite select_fmap. apply constraint_line.
    + apply Forall2_fmap_r, Forall_Forall2_diag, Forall_true. done.
Qed.

Lemma comparator_unchecked_witness :
  ∃ self,
    (ConstrainedAttribute.init [PyInt 1] "!=" [(PyInt 1, 1)] (PyStr <$> ["a"]) σ0).2
    = Ok self ∧
    Forall (λ c, Constraint.comparator c = "!=") (ConstrainedAttribute.constraints self).
Proof.
  destruct (comparator_unchecked [PyInt 1] "!=" [(PyInt 1, 1)] ["a"] σ0 eq_refl)
    as (self & Hinit & Hcmp & _).
  exists self. split; [exact Hinit | exact Hcmp].
Defined.

(** C7, counterexample. The comparator [<] is none of the three recognized
    ones; construction with it succeeds and the line shows it. *)
Lemma comparator_counterexample :
  ¬ recognized "<" ∧
  (ConstrainedAttribute.init [PyInt 1] "<" [(PyInt 1, 1)] [PyStr "x5"] σ0).2
  = Ok (ConstrainedAttribute.mk [Constraint.init [PyStr "x5"] "<" 1]) ∧
  Constraint.as_lpsolve_string (Constraint.init [PyStr "x5"] "<" 1) 2
  = Ok ("x5_2<1;" +:+ nl) ∧
  ¬ rejects_unrecognized.
Proof.
  assert (¬ recognized "<") as Hnot by (intros [H|[H|H]]; discriminate H).
  split; [exact Hnot|]. split; [by vm_compute|]. split; [by vm_compute|].
  intros Hrejects.
  destruct (Hrejects [PyInt 1] "<" [(PyInt 1, 1)] [PyStr "x5"] σ0 Hnot) as [e He].
  vm_compute in He. discriminate He.
Qed.

(** C8 (amended). For a string identifier, synthesis of the name of a
    decision variable succeeds and yields the identifier, [_] and the form
    index. An integer identifier is not converted to text: synthesis ends
    with [TypeError]. *)
Theorem var_for_spec (ids : list pyval) (item : nat) (form : Z) (id : pyval) :
  ids !! item = Some id →
  Solver._var_for ids item form
  = match id with
    | PyStr name => Ok (name +:+ "_" +:+ pretty form)
    | PyInt _ => Raise TypeError
    end.
Proof.
  intros Hid. unfold Solver._var_for. rewrite Hid.
  destruct id as [name|z]; [|done]. simpl. by rewrite append_assoc.
Qed.

Lemma var_for_spec_witness :
  Solver._var_for [PyStr "a"; PyStr "b"] 1 3 = Ok ("b_3").
Proof. exact (var_for_spec [PyStr "a"; PyStr "b"] 1 3 (PyStr "b") eq_refl). Defined.

(** C8, counterexample. The integer identifier 7: synthesis ends with
    [TypeError], and so does the construction of the encoder on a table with
    that identifier. *)
Lemma var_for_counterexample :
  Solver._var_for [PyInt 7] 0 0 = Raise TypeError ∧
  (Solver.init integer_id_data [] 1 1 σ0).2 = Raise TypeError ∧
  ¬ var_for_total.
Proof.
  split; [done|]. split; [by vm_compute|].
  intros Htotal. specialize (Htotal [PyInt 7] 0%nat 0 (PyInt 7) eq_refl).
  discriminate Htotal.
Qed.

(** C9. Two runs of the encoder on the same arguments, from any two states,
    end with the same outcome; and when the encoder is constructed, so that
    [solve] opens the output file, the two runs leave the same text in
    it. *)
Theorem encoding_deterministic (data : DataFrame) (spec : list (string * list rule))
    (num_forms items_per_form : Z) (path : string) (σ σ' : State Solver.t) :
  (run data spec num_forms items_per_form path σ).2
  = (run data spec num_forms items_per_form path σ').2 ∧
  (∀ self, (Solver.init data spec num_forms items_per_form σ).2 = Ok self →
     is_Some (output data spec num_forms items_per_form path σ) ∧
     output data spec num_forms items_per_form path σ
     = output data spec num_forms items_per_form path σ').
Proof.
  destruct (run_effect data spec num_forms items_per_form path) as (r & text & Hrun).
  destruct (Hrun σ) as [Hr Ht]. destruct (Hrun σ') as [Hr' Ht'].
  split; [congruence|]. intros self Hself.
  destruct text as [t|].
  - rewrite Ht, Ht'. eauto.
  - destruct Ht as [e He]. congruence.
Qed.

Lemma encoding_deterministic_witness :
  output scenario_a_data scenario_a_spec 2 1 "run.lp" σ0
  = output scenario_a_data scenario_a_spec 2 1 "run.lp" σ1.
Proof.
  refine (proj2 (proj2 (encoding_deterministic scenario_a_data scenario_a_spec 2 1
                          "run.lp" σ0 σ1) 0%nat _)).
  vm_compute. reflexivity.
Defined.

(** C10. After the construction of the encoder, a call of [solve] leaves the
    Solver object as it was, with every field, and leaves the heap and the
    standard output as they were; a second call of [solve] ends with the
    same outcome and leaves the same text in the output file. *)
Theorem solve_frame (data : DataFrame) (spec : list (string * list rule))
    (num_forms items_per_form : Z) (path : string)
    (σ σ' : State Solver.t) (self : nat) :
  Solver.init data spec num_forms items_per_form σ = (σ', Ok self) →
  let once := Solver.solve self path σ' in
  let twice := Solver.solve self path once.1 in
  is_Some (heap σ' !! self) ∧
  heap once.1 !! self = heap σ' !! self ∧
  heap once.1 = heap σ' ∧
  stdout once.1 = stdout σ' ∧
  twice.2 = once.2 ∧
  is_Some (files once.1 !! path) ∧
  files twice.1 !! path = files once.1 !! path ∧
  twice.1 = once.1.
Proof.
  intros Hinit once twice.
  destruct (solve_idempotent σ' self path) as (Hheap & Hout & Htwice).
  fold once in Hheap, Hout, Htwice. fold twice in Htwice.
  assert (is_Some (heap σ' !! self)) as [s Hs].
  { destruct (solver_init_effect data spec num_forms items_per_form)
      as (out & [s|e] & Hc); rewrite (Hc σ) in Hinit; [|discriminate Hinit].
    injection Hinit as <- <-. simpl. rewrite lookup_insert_eq. eauto. }
  split; [eauto|]. split; [by rewrite Hheap|]. split; [done|]. split; [done|].
  rewrite Htwice. split; [done|]. split; [|done].
  destruct (solve_effect s path) as (text & r & Hsolve).
  subst once. rewrite (Hsolve σ' self Hs). simpl. rewrite lookup_insert_eq. eauto.
Qed.

Lemma solve_frame_witness :
  let σ' := (Solver.init scenario_a_data scenario_a_spec 2 1 σ0).1 in
  heap (Solver.solve 0 "run.lp" σ').1 = heap σ'.
Proof.
  refine (proj1 (proj2 (proj2 (solve_frame scenario_a_data scenario_a_spec 2 1 "run.lp"
                                  σ0 _ 0%nat _)))).
  vm_compute. reflexivity.
Defined.

(** * Further properties of the encoder *)

(** ** The names of the decision variables are distinct *)

Lemma count_char_app (c : ascii) (a b : string) :
  count_char c (a +:+ b) = (count_char c a + count_char c b)%nat.
Proof.
  induction a as [|x a IH]; [done|].
  unfold String.append; fold String.append. simpl. rewrite IH. lia.
Qed.

Lemma underscore_free_pretty_N_go (x : N) (s : string) :
  count_char "_" (pretty_N_go x s) = count_char "_" s.
Proof.
  revert s. induction (N.lt_wf_0 x) as [x _ IH]; intros s.
  destruct (decide (x = 0)%N) as [->|Hx]; [by rewrite pretty_N_go_0|].
  rewrite pretty_N_go_step by lia.
  rewrite IH by (apply N.div_lt; lia).
  unfold pretty_N_char. by repeat case_match.
Qed.

Lemma underscore_free_pretty_Z (z : Z) : count_char "_" (pretty z) = 0%nat.
Proof.
  assert (∀ x : N, count_char "_" (pretty x) = 0%nat) as HN.
  { intros x. unfold pretty, pretty_N.
    case_decide; [done|]. by rewrite underscore_free_pretty_N_go. }
  destruct z as [|p|p]; [done|apply (HN (Npos p))|].
  change (pretty (Z.neg p)) with ("-" +:+ pretty p). rewrite count_char_app.
  assert (count_char "_" (pretty p) = 0%nat) as -> by apply (HN (Npos p)).
  done.
Qed.

(** A text splits in one way only at its last underscore. *)
Lemma split_last_underscore (a b p q : string) :
  count_char "_" p = 0%nat → count_char "_" q = 0%nat →
  a +:+ String "_" p = b +:+ String "_" q → a = b ∧ p = q.
Proof.
  intros Hp Hq. revert b. induction a as [|x a IH]; intros [|y b] Heq.
  - by injection Heq.
  - injection Heq as <- ->. rewrite count_char_app in Hp. simpl in Hp. lia.
  - injection Heq as -> <-. rewrite count_char_app in Hq. simpl in Hq. lia.
  - injection Heq as -> Heq. destruct (IH b Heq) as [-> ->]. done.
Qed.

Lemma var_name_inj (id1 id2 : string) (f1 f2 : Z) :
  var_name id1 f1 = var_name id2 f2 → id1 = id2 ∧ f1 = f2.
Proof.
  unfold var_name. rewrite !append_assoc. intros Heq.
  apply split_last_underscore in Heq as [-> Hf];
    [|apply underscore_free_pretty_Z..].
  split; [done|]. by apply (inj pretty).
Qed.

#[local] Instance var_name_form_inj (id : string) : Inj (=) (=) (var_name id).
Proof. intros f1 f2 Heq. by apply var_name_inj in Heq as [_ ?]. Qed.

Lemma var_names_NoDup (names : list string) (num_forms : Z) :
  NoDup names → NoDup (names ≫= λ id, var_name id <$> range num_forms).
Proof.
  intros Hnames. apply NoDup_bind; [| |done].
  - intros id1 id2 v _ _ H1 H2.
    apply list_elem_of_fmap in H1 as (f1 & -> & _).
    apply list_elem_of_fmap in H2 as (f2 & Heq & _).
    by apply var_name_inj in Heq as [? _].
  - intros id _. apply NoDup_fmap_2; [apply _|]. apply NoDup_seqZ.
Qed.

Lemma init_valid_run names data spec num_forms items_per_form (σ : State Solver.t) :
  valid_input names data spec →
  ∃ self,
    (Solver.init data spec num_forms items_per_form σ).2 = Ok self ∧
    heap (Solver.init data spec num_forms items_per_form σ).1 !! self
    = Some (solver_of names data spec num_forms items_per_form).
Proof.
  intros Hvalid.
  rewrite (init_valid names data spec num_forms items_per_form Hvalid σ). simpl.
  eexists. split; [done|]. apply lookup_insert_eq.
Qed.

(** X1. On a valid input the constructed object indexes every decision
    variable three times, consistently: the name that [_var_for] gives to
    item [i] and form [f] is the [f]-th name of [item_occurences[i]], the
    [i]-th name of [form_items[f]], and the name at position
    [i * num_forms + f] of [var_names]; and [var_names] has [decision_vars]
    names (none when the product is negative). *)
Theorem solver_indexes (names : list string) (data : DataFrame)
    (spec : list (string * list rule)) (num_forms items_per_form : Z)
    (σ : State Solver.t) :
  valid_input names data spec →
  ∃ self s,
    (Solver.init data spec num_forms items_per_form σ).2 = Ok self ∧
    heap (Solver.init data spec num_forms items_per_form σ).1 !! self = Some s ∧
    Solver.num_items s = length names ∧
    length (Solver.var_names s) = Z.to_nat (Solver.decision_vars s) ∧
    ∀ (i f : nat) (id : string),
      names !! i = Some id → Z.of_nat f < num_forms →
      Solver._var_for (Solver.ids s) i (Z.of_nat f) = Ok (var_name id (Z.of_nat f)) ∧
      Solver.item_occurences s !! i ≫= (.!! f) = Some (var_name id (Z.of_nat f)) ∧
      Solver.form_items s !! Z.of_nat f ≫= (.!! i) = Some (var_name id (Z.of_nat f)) ∧
      Solver.var_names s !! (i * Z.to_nat num_forms + f)%nat
      = Some (var_name id (Z.of_nat f)).
Proof.
  intros Hvalid. pose proof (valid_length names data spec Hvalid) as Hlen.
  destruct (init_valid_run names data spec num_forms items_per_form σ Hvalid)
    as (self & Hself & Hheap).
  exists self, (solver_of names data spec num_forms items_per_form).
  split; [done|]. split; [done|]. unfold solver_of. simpl.
  split; [done|]. split.
  { rewrite (length_bind_const _ _ (Z.to_nat num_forms))
      by (intros id; unfold range; by rewrite length_fmap, length_seqZ).
    rewrite Hlen. nia. }
  intros i f id Hid Hf.
  assert (range num_forms !! f = Some (Z.of_nat f)) as Hrange
    by (unfold range; by rewrite lookup_seqZ_lt).
  split; [by apply var_for_name|]. split; [|split].
  - rewrite (lookup_list_to_map_fmap
      (λ i, var_name (default "" (names !! i)) <$> range num_forms)).
    + simpl. by rewrite list_lookup_fmap, Hrange, Hid.
    + apply elem_of_seq. apply lookup_lt_Some in Hid. lia.
  - rewrite (lookup_list_to_map_fmap (λ f, (λ id, var_name id f) <$> names)).
    + simpl. by rewrite list_lookup_fmap, Hid.
    + by eapply list_elem_of_lookup_2.
  - rewrite (lookup_bind_const _ _ (Z.to_nat num_forms) i f id).
    + by rewrite list_lookup_fmap, Hrange.
    + intros x. unfold range. by rewrite length_fmap, length_seqZ.
    + done.
    + lia.
Qed.

Lemma solver_indexes_witness :
  ∃ self s,
    (Solver.init scenario_a_data scenario_a_spec 2 1 σ0).2 = Ok self ∧
    heap (Solver.init scenario_a_data scenario_a_spec 2 1 σ0).1 !! self = Some s ∧
    Solver.var_names s !! 5%nat = Some "c_1".
Proof.
  destruct (solver_indexes ["a"; "b"; "c"] scenario_a_data scenario_a_spec 2 1 σ0)
    as (self & s & Hself & Hheap & _ & _ & Hvar).
  { unfold valid_input, DataFrame_wf. by_evaluation. }
  exists self, s. split; [exact Hself|]. split; [exact Hheap|].
  exact (proj2 (proj2 (proj2 (Hvar 2%nat 1%nat "c" eq_refl eq_refl)))).
Defined.

(** X2. With unique identifiers, the names of the decision variables of the
    constructed object are pairwise distinct, there are (item count) times
    (form count) of them, and the names held by [form_items], form by form,
    are a rearrangement of [var_names]. *)
Theorem decision_variables_distinct (names : list string) (data : DataFrame)
    (spec : list (string * list rule)) (num_forms items_per_form : Z)
    (σ : State Solver.t) :
  valid_input names data spec → NoDup names →
  ∃ self s,
    (Solver.init data spec num_forms items_per_form σ).2 = Ok self ∧
    heap (Solver.init data spec num_forms items_per_form σ).1 !! self = Some s ∧
    NoDup (Solver.var_names s) ∧
    length (Solver.var_names s) = (nrows data * Z.to_nat num_forms)%nat ∧
    (range num_forms ≫= λ f, default [] (Solver.form_items s !! f))
    ≡ₚ Solver.var_names s.
Proof.
  intros Hvalid Hnames. pose proof (valid_length names data spec Hvalid) as Hlen.
  destruct (init_valid_run names data spec num_forms items_per_form σ Hvalid)
    as (self & Hself & Hheap).
  exists self, (solver_of names data spec num_forms items_per_form).
  split; [done|]. split; [done|]. unfold solver_of. simpl.
  split; [by apply var_names_NoDup|]. split.
  { rewrite (length_bind_const _ _ (Z.to_nat num_forms)), Hlen; [done|].
    intros id. unfold range. by rewrite length_fmap, length_seqZ. }
  assert ((range num_forms ≫= λ f,
             default [] ((list_to_map ((λ f, (f, (λ id, var_name id f) <$> names))
                            <$> range num_forms) : gmap Z (list string)) !! f))
          = range num_forms ≫= λ f, (λ id, var_name id f) <$> names) as ->.
  { apply Forall_bind_ext, Forall_forall. intros f Hf.
    by rewrite (lookup_list_to_map_fmap (λ f, (λ id, var_name id f) <$> names)). }
  apply NoDup_Permutation; [|by apply var_names_NoDup|].
  - apply NoDup_bind; [| |apply NoDup_seqZ].
    + intros f1 f2 v _ _ H1 H2.
      apply list_elem_of_fmap in H1 as (id1 & -> & _).
      apply list_elem_of_fmap in H2 as (id2 & Heq & _).
      by apply var_name_inj in Heq as [_ ?].
    + intros f _. apply NoDup_fmap_2_strong; [|done].
      intros id1 id2 _ _ Heq. by apply var_name_inj in Heq as [? _].
  - intros v. rewrite !list_elem_of_bind. split.
    + intros (f & Hv & Hf). apply list_elem_of_fmap in Hv as (id & -> & Hid).
      exists id. split; [|done]. apply list_elem_of_fmap. eauto.
    + intros (id & Hv & Hid). apply list_elem_of_fmap in Hv as (f & -> & Hf).
      exists f. split; [|done]. apply list_elem_of_fmap. eauto.
Qed.

Lemma decision_variables_distinct_witness :
  ∃ self s,
    (Solver.init scenario_a_data scenario_a_spec 2 1 σ0).2 = Ok self ∧
    heap (Solver.init scenario_a_data scenario_a_spec 2 1 σ0).1 !! self = Some s ∧
    NoDup (Solver.var_names s).
Proof.
  destruct (decision_variables_distinct ["a"; "b"; "c"] scenario_a_data scenario_a_spec
              2 1 σ0) as (self & s & Hself & Hheap & Hnd & _).
  { unfold valid_input, DataFrame_wf. by_evaluation. }
  { by_evaluation. }
  exists self, s. split; [exact Hself|]. split; [exact Hheap|]. exact Hnd.
Defined.

(** ** What [__init__] touches *)

(** X3. Whatever its arguments, [__init__] writes no file and changes no
    object that exists; it only appends to the standard output. When it
    returns, the new object is at an address that was free; when it raises,
    the heap is as it was. *)
Theorem init_frame (data : DataFrame) (spec : list (string * list rule))
    (num_forms items_per_form : Z) (σ : State Solver.t) :
  files (Solver.init data spec num_forms items_per_form σ).1 = files σ ∧
  (∃ out, stdout (Solver.init data spec num_forms items_per_form σ).1
          = stdout σ +:+ out) ∧
  match (Solver.init data spec num_forms items_per_form σ).2 with
  | Ok self =>
      heap σ !! self = None ∧
      is_Some (heap (Solver.init data spec num_forms items_per_form σ).1 !! self) ∧
      ∀ l, l ≠ self →
        heap (Solver.init data spec num_forms items_per_form σ).1 !! l = heap σ !! l
  | Raise _ => heap (Solver.init data spec num_forms items_per_form σ).1 = heap σ
  end.
Proof.
  destruct (solver_init_effect data spec num_forms items_per_form)
    as (out & [s|e] & Hinit); rewrite (Hinit σ); simpl.
  - split; [done|]. split; [eauto|]. split; [|split].
    + apply not_elem_of_dom, is_fresh.
    + rewrite lookup_insert_eq. eauto.
    + intros l Hl. by rewrite lookup_insert_ne.
  - eauto.
Qed.

(** ** Inversion of successful statements *)








(** ** The identifiers of the constraints are identifiers of the table *)


Section subset.
Context (ids : list pyval).

(** The identifiers of the Constraint are among [ids]. *)
Local Abbreviation within k := (Constraint.ids k ⊆ ids).
Local Abbreviation all_within c := (Forall (λ k, within k) (ConstrainedAttribute.constraints c)).




End subset.

(** ** After [__init__], [solve] can render the object *)








(** ** The exceptions of [__init__] *)









(** ** Integer identifiers *)

Lemma traverse_raise {A B : Type} (f : A → result B) (l : list A) (e : exn) :
  (∀ a, a ∈ l → (∃ b, f a = Ok b) ∨ f a = Raise e) →
  (∃ a, a ∈ l ∧ f a = Raise e) →
  traverse f l = Raise e.
Proof.
  induction l as [|a l IH]; intros Hall (x & Hx & Hraise).
  - by apply elem_of_nil in Hx.
  - cbn [traverse]. destruct (Hall a) as [[b Hb]|Ha]; [left| |by rewrite Ha].
    rewrite Hb. simpl. rewrite IH; [done| |].
    + intros y Hy. apply Hall. by right.
    + apply elem_of_cons in Hx as [->|Hx]; [congruence|eauto].
Qed.

Lemma traverse_ok_or {A B : Type} (f : A → result B) (l : list A) (e : exn) :
  (∀ a, a ∈ l → (∃ b, f a = Ok b) ∨ f a = Raise e) →
  (∃ r, traverse f l = Ok r) ∨ traverse f l = Raise e.
Proof.
  induction l as [|a l IH]; intros Hall; [left; by eexists|].
  cbn [traverse]. destruct (Hall a) as [[b ->] | ->]; [left| |by right].
  simpl. destruct IH as [[r ->] | ->]; [intros y Hy; apply Hall; by right|..].
  - left. by eexists.
  - by right.
Qed.

(** X6. On a rectangular table with at least one form, one integer
    identifier anywhere in the table makes [__init__] raise [TypeError]
    before anything is printed: the state is as it was. *)
Theorem integer_identifier_TypeError (data : DataFrame) (spec : list (string * list rule))
    (num_forms items_per_form : Z) (σ : State Solver.t)
    (ids : list pyval) (i : nat) (z : Z) :
  DataFrame_wf data →
  columns data !! "item_id" = Some ids →
  ids !! i = Some (PyInt z) →
  0 < num_forms →
  Solver.init data spec num_forms items_per_form σ = (σ, Raise TypeError).
Proof.
  intros Hwf Hcol Hi Hpos.
  assert (length ids = nrows data) as Hlen by apply (Hwf _ _ Hcol).
  assert (∀ item form, (item < length ids)%nat →
            (∃ v, Solver._var_for ids item form = Ok v)
            ∨ Solver._var_for ids item form = Raise TypeError) as Hvar.
  { intros item form Hitem. unfold Solver._var_for.
    destruct (lookup_lt_is_Some_2 ids item Hitem) as [[name|z'] ->]; [left|right].
    - by eexists.
    - done. }
  unfold Solver.init, df_attr. rewrite Hcol.
  change (bind (lift (Ok ids)) ?k σ) with (k ids σ). cbv beta.
  rewrite (traverse_raise _ _ TypeError).
  - done.
  - intros item Hitem. apply elem_of_seq in Hitem as [_ Hitem].
    destruct (traverse_ok_or (λ form, Solver._var_for ids item form)
                (range num_forms) TypeError) as [[vars ->] | ->].
    + intros form _. apply Hvar. lia.
    + left. by eexists.
    + by right.
  - exists i. split.
    + apply elem_of_seq. apply lookup_lt_Some in Hi. lia.
    + rewrite (traverse_raise _ _ TypeError); [done| |].
      * intros form _. apply Hvar. by eapply lookup_lt_Some.
      * exists 0. split; [unfold range; apply elem_of_seqZ; lia|].
        unfold Solver._var_for. by rewrite Hi.
Qed.

Lemma integer_identifier_TypeError_witness :
  Solver.init integer_id_data scenario_a_spec 3 1 σ1 = (σ1, Raise TypeError).
Proof.
  refine (integer_identifier_TypeError integer_id_data scenario_a_spec 3 1 σ1
            [PyInt 7] 0%nat 7 _ _ _ _); [|reflexivity..].
  unfold DataFrame_wf. by_evaluation.
Defined.

(** ** Attributes that are no column of the table *)

Lemma init_attributes_app data ids pre rest acc (σ : State Solver.t) :
  Solver.init_attributes data ids (pre ++ rest) acc σ
  = bind (Solver.init_attributes data ids pre acc)
      (λ acc', Solver.init_attributes data ids rest acc') σ.
Proof.
  revert acc σ. induction pre as [|[attr rules] pre IH]; intros acc σ; [done|].
  rewrite <- app_comm_cons. cbn [Solver.init_attributes]. unfold bind.
  destruct (Solver.init_rules data ids attr rules acc σ) as [σ1 [acc'|e]]; [|done].
  by rewrite IH.
Qed.

Section init_prefix.
Context (names : list string) (data : DataFrame).
Context (num_forms items_per_form : Z).
Context (Hids : columns data !! "item_id" = Some (PyStr <$> names)).
Context (Hlen : length names = nrows data).

(** With string identifiers, [__init__] raises what the construction of
    the constraints raises. *)
Lemma init_raises_with_attributes spec out e :
  prints (Solver.init_attributes data (PyStr <$> names) spec []) out (Raise e) →
  constructs (Solver.init data spec num_forms items_per_form) out (Raise e).
Proof.
  intros Hattr. unfold Solver.init, df_attr. rewrite Hids.
  apply constructs_bind_lift.
  rewrite (traverse_ok _
    (λ i, (i, var_name (default "" (names !! i)) <$> range num_forms))).
  2:{ intros i Hi. apply elem_of_seq in Hi as [_ Hi]. simpl in Hi.
      destruct (lookup_lt_is_Some_2 names i) as [id Hid]; [lia|].
      rewrite (traverse_ok _ (var_name id)); [by rewrite Hid|].
      intros f _. by apply var_for_name. }
  apply constructs_bind_lift.
  rewrite (traverse_ok _ (λ f, (f, (λ id, var_name id f) <$> names))).
  2:{ intros f _. rewrite <- Hlen.
      rewrite (traverse_seq_ok _ (λ id, var_name id f)); [done|].
      intros i id Hid. by apply var_for_name. }
  apply constructs_bind_lift.
  by apply constructs_bind_raise.
Qed.

End init_prefix.

(** X7. When the attribute of a rule is no column of the table, [__init__]
    raises [KeyError] at that rule: the rules before it have been
    constructed and their lines printed, no file is written and no object
    is created. *)
Theorem missing_attribute_KeyError (names : list string) (data : DataFrame)
    (pre post : list (string * list rule)) (attr : string) (rl : rule) (rules : list rule)
    (num_forms items_per_form : Z) (σ : State Solver.t) :
  valid_input names data pre →
  columns data !! attr = None →
  Solver.init data (pre ++ (attr, rl :: rules) :: post) num_forms items_per_form σ
  = (mkState (heap σ)
       (stdout σ +:+ String.concat "" (rule_log (PyStr <$> names) <$> rules_of data pre))
       (files σ),
     Raise KeyError).
Proof.
  intros Hvalid Hattr. pose proof (valid_length names data pre Hvalid) as Hlen.
  destruct Hvalid as (Hids & Hwf & Hpre).
  apply (init_raises_with_attributes names data num_forms items_per_form Hids Hlen).
  intros σ1. rewrite init_attributes_app. unfold bind at 1.
  rewrite (init_attributes_valid names data pre [] Hwf Hlen).
  2:{ intros a rs Hin. rewrite Forall_forall in Hpre. apply (Hpre _ Hin). }
  cbn [Solver.init_attributes Solver.init_rules]. unfold df_getitem. rewrite Hattr.
  done.
Qed.

Lemma missing_attribute_KeyError_witness :
  (Solver.init scenario_a_data (scenario_a_spec ++ [("Difficulty", [mkRule "=" []])])
     2 1 σ0).2 = Raise KeyError.
Proof.
  rewrite (missing_attribute_KeyError ["a"; "b"; "c"] scenario_a_data scenario_a_spec []
             "Difficulty" (mkRule "=" []) [] 2 1 σ0).
  - reflexivity.
  - unfold valid_input, DataFrame_wf. by_evaluation.
  - reflexivity.
Defined.

Lemma init_attributes_skip data ids pre post attr acc (σ : State Solver.t) :
  Solver.init_attributes data ids (pre ++ (attr, []) :: post) acc σ
  = Solver.init_attributes data ids (pre ++ post) acc σ.
Proof. by rewrite !init_attributes_app. Qed.

(** X8. An attribute with an empty list of rules is never looked up in the
    table: whether or not it is a column, [__init__] behaves as if the
    specification did not name it. *)
Theorem attribute_without_rules_ignored (data : DataFrame)
    (pre post : list (string * list rule)) (attr : string)
    (num_forms items_per_form : Z) (σ : State Solver.t) :
  Solver.init data (pre ++ (attr, []) :: post) num_forms items_per_form σ
  = Solver.init data (pre ++ post) num_forms items_per_form σ.
Proof.
  unfold Solver.init, bind, lift.
  destruct (df_attr data "item_id") as [ids|e]; [|done].
  destruct (traverse _ (seq 0 (nrows data))) as [occ|e]; [|done].
  destruct (traverse _ (range num_forms)) as [fi|e]; [|done].
  by rewrite init_attributes_skip.
Qed.

(** ** Degenerate programs *)

Lemma bind_nil_r {A B : Type} (l : list A) : l ≫= (λ _ : A, @nil B) = [].
Proof. induction l as [|a l IH]; [done|]. by rewrite bind_cons, IH. Qed.

(** X9. With a form count of zero or less, a valid input still gives a
    program: for every item a uniqueness line with an empty left-hand side,
    [<=1;], no size line, no category line, and a declaration [bin ;]
    without any variable. *)
Theorem no_form_program (names : list string) (data : DataFrame)
    (spec : list (string * list rule)) (num_forms items_per_form : Z)
    (path : string) (σ : State Solver.t) :
  valid_input names data spec → num_forms ≤ 0 →
  (run data spec num_forms items_per_form path σ).2 = Ok tt ∧
  output data spec num_forms items_per_form path σ
  = Some (("min: ;" +:+ nl)
          +:+ String.concat "" (replicate (nrows data) ("<=1;" +:+ nl))
          +:+ "bin ;" +:+ nl).
Proof.
  intros Hvalid Hforms. pose proof (valid_length names data spec Hvalid) as Hlen.
  split; [by rewrite (run_valid names)|].
  rewrite (output_valid names) by done. f_equal.
  unfold program, uniqueness_lines, size_lines, category_lines, bin_line, range.
  rewrite seqZ_nil by done. simpl. rewrite bind_nil_r, <- Hlen. simpl.
  by rewrite (const_fmap _ names ("<=1;" +:+ nl)).
Qed.

Lemma no_form_program_witness :
  output scenario_a_data scenario_a_spec 0 1 "run.lp" σ0
  = Some (("min: ;" +:+ nl)
          +:+ String.concat "" (replicate 3 ("<=1;" +:+ nl)) +:+ "bin ;" +:+ nl).
Proof.
  refine (proj2 (no_form_program ["a"; "b"; "c"] scenario_a_data scenario_a_spec 0 1
                   "run.lp" σ0 _ _)).
  - unfold valid_input, DataFrame_wf. by_evaluation.
  - lia.
Defined.

Lemma select_nil {A : Type} (ids : list A) column category :
  category ∉ column → select ids column category = [].
Proof.
  intros Hnot. destruct (select ids column category) as [|x l] eqn:Hsel; [done|].
  assert (x ∈ select ids column category) as Hx by (rewrite Hsel; left).
  apply elem_of_select in Hx as (i & _ & Hi).
  destruct Hnot. by eapply list_elem_of_lookup_2.
Qed.

(** X10. A category of the bound mapping that no item has still gets its
    Constraint, over no item, and its line consists of the comparator, the
    bound, a semicolon and a line terminator: the left-hand side is
    empty. *)
Theorem unmatched_category_line (classifications : list pyval) (comparator : string)
    (category : pyval) (bound : Z) (entries : list (pyval * Z)) (ids : list pyval)
    (form : Z) (σ : State Solver.t) :
  length classifications = length ids →
  (category, bound) ∈ entries →
  category ∉ classifications →
  ∃ self k,
    (ConstrainedAttribute.init classifications comparator entries ids σ).2 = Ok self ∧
    k ∈ ConstrainedAttribute.constraints self ∧
    k = Constraint.mk [] comparator bound ∧
    Constraint.as_lpsolve_string k form = Ok (comparator +:+ pretty bound +:+ ";" +:+ nl).
Proof.
  intros Hlen Hin Hnot.
  rewrite (init_aligned (Obj:=Solver.t) classifications comparator ids entries Hlen σ).
  eexists _, (Constraint.mk [] comparator bound). split; [done|].
  split; [|done]. cbn [ConstrainedAttribute.constraints].
  apply list_elem_of_fmap. exists (category, bound). split; [|done].
  unfold constraint_of. simpl. by rewrite select_nil.
Qed.

Lemma unmatched_category_line_witness :
  ∃ self,
    (ConstrainedAttribute.init [PyInt 1; PyInt 2] "<=" [(PyInt 3, 4)]
       [PyStr "a"; PyStr "b"] σ0).2 = Ok self ∧
    Constraint.mk [] "<=" 4 ∈ ConstrainedAttribute.constraints self.
Proof.
  destruct (unmatched_category_line [PyInt 1; PyInt 2] "<=" (PyInt 3) 4 [(PyInt 3, 4)]
              [PyStr "a"; PyStr "b"] 0 σ0) as (self & k & Hinit & Hk & -> & _).
  - reflexivity.
  - by_evaluation.
  - by_evaluation.
  - exists self. split; [exact Hinit | exact Hk].
Defined.

(** ** Rules without categories *)

Lemma prune_lines names data spec form :
  rules_of data (prune spec) ≫= rule_lines names form
  = rules_of data spec ≫= rule_lines names form.
Proof.
  induction spec as [|[attr rules] spec IH]; [done|].
  unfold prune in *. rewrite fmap_cons, !rules_of_cons, !bind_app, IH. f_equal.
  simpl. clear IH. induction rules as [|r rules IH]; [done|].
  rewrite filter_cons. destruct (decide (rule_values r ≠ [])) as [Hr|Hr].
  - by rewrite !fmap_cons, !bind_cons, IH.
  - rewrite fmap_cons, bind_cons, IH.
    apply dec_stable in Hr. unfold rule_lines at 2. simpl. by rewrite Hr.
Qed.

Lemma prune_valid names data spec :
  valid_input names data spec → valid_input names data (prune spec).
Proof.
  intros (Hids & Hwf & Hspec). split; [done|]. split; [done|].
  unfold prune. rewrite Forall_fmap. eapply Forall_impl; [exact Hspec|]. done.
Qed.

(** X11. A rule whose bound mapping is empty contributes nothing: the
    encoder writes the same program as for the specification without such
    rules. *)
Theorem empty_rules_contribute_nothing (names : list string) (data : DataFrame)
    (spec : list (string * list rule)) (num_forms items_per_form : Z)
    (path : string) (σ : State Solver.t) :
  valid_input names data spec →
  (run data spec num_forms items_per_form path σ).2
  = (run data (prune spec) num_forms items_per_form path σ).2 ∧
  output data spec num_forms items_per_form path σ
  = output data (prune spec) num_forms items_per_form path σ.
Proof.
  intros Hvalid. pose proof (prune_valid names data spec Hvalid) as Hpruned.
  split; [by rewrite !(run_valid names)|].
  rewrite !(output_valid names) by done. f_equal.
  unfold program.
  assert (category_lines names data (prune spec) num_forms
          = category_lines names data spec num_forms) as ->; [|done].
  unfold category_lines.
  apply Forall_bind_ext, Forall_true. intros form. apply prune_lines.
Qed.

Lemma empty_rules_contribute_nothing_witness :
  output scenario_a_data [("Content", [mkRule ">=" []; mkRule "<=" [(PyInt 1, 1)]])]
    2 1 "run.lp" σ0
  = output scenario_a_data scenario_a_spec 2 1 "run.lp" σ0.
Proof.
  refine (proj2 (empty_rules_contribute_nothing ["a"; "b"; "c"] scenario_a_data
                   [("Content", [mkRule ">=" []; mkRule "<=" [(PyInt 1, 1)]])]
                   2 1 "run.lp" σ0 _)).
  unfold valid_input, DataFrame_wf. by_evaluation.
Defined.

(** ** MultiConstrainedAttribute *)



Lemma np_eq_single (v key : pyval) : np_eq [v] key = [py_eq v key].
Proof.
  unfold np_eq. destruct (comparable [v] key) eqn:Hcmp; [done|].
  apply not_comparable_ne in Hcmp. simpl in Hcmp. by injection Hcmp as ->.
Qed.

Lemma all_equal_single (row category : list pyval) (j n : nat) :
  (j + n)%nat = length row → (length row ≤ length category)%nat →
  MultiConstrainedAttribute.all_equal ((λ v, [v]) <$> row) category (seq j n)
  = Ok (bool_decide (drop j row = take n (drop j category))).
Proof.
  revert j. induction n as [|n IH]; intros j Hj Hlen.
  - simpl. rewrite drop_ge by lia. by rewrite bool_decide_eq_true_2.
  - cbn [seq MultiConstrainedAttribute.all_equal].
    destruct (lookup_lt_is_Some_2 row j) as [v Hv]; [lia|].
    destruct (lookup_lt_is_Some_2 category j) as [k Hk]; [lia|].
    rewrite list_lookup_fmap, Hv, Hk. simpl. rewrite np_eq_single. simpl.
    rewrite (drop_S row v j Hv), (drop_S category k j Hk). simpl.
    unfold py_eq. destruct (decide (v = k)) as [->|Hne].
    + rewrite bool_decide_eq_true_2 by done. rewrite IH by lia.
      f_equal. apply bool_decide_ext. split; [by intros ->|by intros [= ->]].
    + rewrite bool_decide_eq_false_2 by done.
      rewrite bool_decide_eq_false_2; [done|]. by intros [= ? _].
Qed.

Lemma multi_init_loop_single (row : list pyval) (comparator : string) (x : pyval)
    (entries : list (list pyval * Z)) (acc : list Constraint.t) :
  Forall (λ e : list pyval * Z, (length row ≤ length e.1)%nat) entries →
  MultiConstrainedAttribute.init_loop ((λ v, [v]) <$> row) comparator [x] entries acc
  = Ok (acc ++ ((λ e : list pyval * Z,
          Constraint.mk (if bool_decide (row = take (length row) e.1) then [x] else [])
            comparator e.2) <$> entries)).
Proof.
  intros Hentries. revert acc.
  induction Hentries as [|[category limit] entries Hlen _ IH]; intros acc.
  - simpl. by rewrite app_nil_r.
  - cbn [MultiConstrainedAttribute.init_loop]. rewrite length_fmap.
    rewrite (all_equal_single row category 0 (length row)) by done.
    rewrite !drop_0. simpl.
    destruct (bool_decide (row = take (length row) category)); simpl;
      rewrite IH, <- app_assoc; done.
Qed.

(** X13. On a table with a single item, the multi-attribute variant is
    right: for every tuple of the bound mapping that has an entry for every
    attribute, the Constraint holds the item exactly when the attribute
    values of the item equal the corresponding entries of the tuple;
    further entries of the tuple are ignored. *)
Theorem multi_attribute_single_item (row : list pyval) (comparator : string)
    (x : pyval) (entries : list (list pyval * Z)) :
  Forall (λ e : list pyval * Z, (length row ≤ length e.1)%nat) entries →
  MultiConstrainedAttribute.init ((λ v, [v]) <$> row) comparator entries [x]
  = Ok (ConstrainedAttribute.mk
          ((λ e : list pyval * Z,
              Constraint.mk (if bool_decide (row = take (length row) e.1) then [x] else [])
                comparator e.2) <$> entries)).
Proof.
  intros Hentries. unfold MultiConstrainedAttribute.init.
  by rewrite multi_init_loop_single.
Qed.

Lemma multi_attribute_single_item_witness :
  MultiConstrainedAttribute.init [[PyInt 1]; [PyStr "hard"]] "<="
    [([PyInt 1; PyStr "hard"], 2); ([PyInt 1; PyStr "easy"], 3)] [PyStr "a"]
  = Ok (ConstrainedAttribute.mk
          [Constraint.mk [PyStr "a"] "<=" 2; Constraint.mk [] "<=" 3]).
Proof.
  refine (multi_attribute_single_item [PyInt 1; PyStr "hard"] "<=" (PyStr "a")
            [([PyInt 1; PyStr "hard"], 2); ([PyInt 1; PyStr "easy"], 3)] _).
  repeat constructor.
Defined.

(** ** What the construction prints *)

(** X14. On a valid input [__init__] prints one line per entry of every
    bound mapping, in the order of the specification: the number of items
    of the category, a space, the comparator, the bound, a space and the
    category. Between the comparator and the bound there is a space, unless
    the comparator ends with a tab, a line feed, a vertical tab, a form
    feed or a carriage return: the [print] statement then writes the bound
    right after it. *)
Theorem construction_log (names : list string) (data : DataFrame)
    (spec : list (string * list rule)) (num_forms items_per_form : Z)
    (σ : State Solver.t) :
  valid_input names data spec →
  stdout (Solver.init data spec num_forms items_per_form σ).1
  = stdout σ +:+ String.concat ""
      (rules_of data spec ≫= λ cr,
         (λ entry : pyval * Z,
            (pretty (length (select names cr.1 entry.1)) +:+ " "
             +:+ rule_comparator cr.2
             +:+ (match last_char (rule_comparator cr.2) with
                  | Some c =>
                      if bool_decide (c ∈ ["009"; "010"; "011"; "012"; "013"]%char)
                      then "" else " "
                  | None => " "
                  end)
             +:+ pretty entry.2 +:+ " " +:+ py_str entry.1) +:+ nl)
         <$> rule_values cr.2).
Proof.
  intros Hvalid.
  rewrite (init_valid names data spec num_forms items_per_form Hvalid σ). simpl.
  rewrite concat_empty_bind. do 2 f_equal.
  apply list_fmap_ext. intros _ cr _. unfold rule_log. f_equal.
  apply list_fmap_ext. intros _ entry _. unfold log_line.
  rewrite select_fmap, length_fmap. do 4 f_equal.
  unfold soft_space. destruct (last_char (rule_comparator cr.2)) as [c|]; [|done].
  assert (isspace c && negb (bool_decide (c = " "%char))
          = bool_decide (c ∈ ["009"; "010"; "011"; "012"; "013"]%char)) as ->; [|done].
  unfold isspace. destruct (decide (c = " "%char)) as [->|Hc]; [done|].
  rewrite (bool_decide_eq_false_2 (c = " "%char)) by done. rewrite andb_true_r.
  apply bool_decide_ext. rewrite elem_of_cons. split; [by intros [?|?]|by right].
Qed.

Lemma construction_log_witness :
  stdout (Solver.init two_category_data two_category_spec 1 1 σ0).1
  = ("1 >= 0 1" +:+ nl) +:+ ("1 >= 0 2" +:+ nl).
Proof.
  rewrite (construction_log ["a"; "b"] two_category_data two_category_spec 1 1 σ0).
  - reflexivity.
  - unfold valid_input, DataFrame_wf. by_evaluation.
Defined.

(** ** Constraints over integer identifiers *)

(** X15. With an integer identifier among the identifiers of a Constraint,
    rendering raises [TypeError], whatever the other identifiers, the form,
    the comparator and the bound. *)
Theorem constraint_rendering_TypeError (ids : list pyval) (comparator : string)
    (bound form : Z) (z : Z) :
  PyInt z ∈ ids →
  Constraint.as_lpsolve_string (Constraint.init ids comparator bound) form
  = Raise TypeError.
Proof.
  intros Hz. unfold Constraint.as_lpsolve_string, Constraint.init.
  cbn [Constraint.ids]. rewrite (traverse_raise _ _ TypeError); [done| |].
  - intros [name|z'] _; [left; by eexists|by right].
  - exists (PyInt z). by split.
Qed.

Lemma constraint_rendering_TypeError_witness :
  Constraint.as_lpsolve_string (Constraint.init [PyStr "a"; PyInt 5] "<=" 1) 0
  = Raise TypeError.
Proof.
  refine (constraint_rendering_TypeError [PyStr "a"; PyInt 5] "<=" 1 0 5 _).
  by_evaluation.
Defined.

(** ** Classifications that are not aligned with the identifiers *)

(** X16. When the classification array and the identifier array have
    different sizes, neither of them 1, and the element type of the
    classification array admits the category of the first entry of the
    bound mapping, [np.where] cannot combine the array of comparisons with
    the identifiers: the construction of a ConstrainedAttribute raises
    [ValueError] at that entry, before anything is printed. *)
Theorem misaligned_classifications_ValueError (classifications : list pyval)
    (comparator : string) (entry : pyval * Z) (entries : list (pyval * Z))
    (ids : list pyval) (σ : State Solver.t) :
  length classifications ≠ length ids →
  length classifications ≠ 1%nat → length ids ≠ 1%nat →
  comparable classifications entry.1 = true →
  ConstrainedAttribute.init classifications comparator (entry :: entries) ids σ
  = (σ, Raise ValueError).
Proof.
  intros Hne Hc Hi Hcmp. destruct entry as [category limit]. simpl in Hcmp.
  unfold ConstrainedAttribute.init. cbn [ConstrainedAttribute.init_loop].
  cbn [zip zip_with ConstrainedAttribute.narrow].
  rewrite np_eq_comparable by done.
  unfold np_where, broadcast_shape.
  rewrite !length_replicate, length_fmap.
  rewrite (decide_True (P := length ids = length ids)) by done. simpl.
  rewrite !decide_False by done. done.
Qed.

Lemma misaligned_classifications_ValueError_witness :
  ConstrainedAttribute.init [PyInt 1; PyInt 2] "<=" [(PyInt 1, 1)]
    [PyStr "a"; PyStr "b"; PyStr "c"] σ0
  = (σ0, Raise ValueError).
Proof.
  refine (misaligned_classifications_ValueError [PyInt 1; PyInt 2] "<=" (PyInt 1, 1) []
            [PyStr "a"; PyStr "b"; PyStr "c"] σ0 _ _ _ _);
    [simpl; lia..|reflexivity].
Defined.

(** ** The entry point *)

Lemma default_constraints_free : 
  Forall (λ ar : string * list rule,
    Forall (λ r, newline_free (rule_comparator r)) ar.2) default_constraints.
Proof. by_evaluation. Qed.

(** X17. Called without a specification, or with an empty one, [main]
    encodes the default specification: on the column [Content], at least 0
    items of each of the categories 1 to 5, and at most 10 items of each of
    them but category 3, of which at most 15. On a table that it can read,
    with string identifiers and a column [Content], it ends normally and
    the output file holds the program of that specification; with
    identifiers free of line terminators, [N] items and [F] forms, the
    program has ten category lines per form and [2 + N + F + 10 F] lines
    in all. *)
Theorem main_default (read_csv : string → result DataFrame) (file : string)
    (names : list string) (data : DataFrame) (num_forms items_per_form : Z)
    (outfile : string) (σ : State Solver.t) :
  read_csv file = Ok data →
  valid_input names data
    [("Content",
      [mkRule ">=" [(PyInt 1, 0); (PyInt 2, 0); (PyInt 3, 0); (PyInt 4, 0); (PyInt 5, 0)];
       mkRule "<=" [(PyInt 1, 10); (PyInt 2, 10); (PyInt 3, 15); (PyInt 4, 10);
                    (PyInt 5, 10)]])] →
  main read_csv file num_forms items_per_form (Some []) outfile σ
  = main read_csv file num_forms items_per_form None outfile σ ∧
  main read_csv file num_forms items_per_form None outfile σ
  = run data
      [("Content",
        [mkRule ">=" [(PyInt 1, 0); (PyInt 2, 0); (PyInt 3, 0); (PyInt 4, 0); (PyInt 5, 0)];
         mkRule "<=" [(PyInt 1, 10); (PyInt 2, 10); (PyInt 3, 15); (PyInt 4, 10);
                      (PyInt 5, 10)]])]
      num_forms items_per_form outfile σ ∧
  (main read_csv file num_forms items_per_form None outfile σ).2 = Ok tt ∧
  files (main read_csv file num_forms items_per_form None outfile σ).1 !! outfile
  = Some (program names data
            [("Content",
              [mkRule ">=" [(PyInt 1, 0); (PyInt 2, 0); (PyInt 3, 0); (PyInt 4, 0);
                            (PyInt 5, 0)];
               mkRule "<=" [(PyInt 1, 10); (PyInt 2, 10); (PyInt 3, 15); (PyInt 4, 10);
                            (PyInt 5, 10)]])]
            num_forms items_per_form) ∧
  (Forall newline_free names →
   ∃ text,
     files (main read_csv file num_forms items_per_form None outfile σ).1 !! outfile
     = Some text ∧
     count_nl text
     = (2 + nrows data + Z.to_nat num_forms + 10 * Z.to_nat num_forms)%nat).
Proof.
  intros Hread Hvalid. change [("Content", _)] with default_constraints in *.
  split; [done|].
  pose proof (run_valid names data default_constraints num_forms items_per_form
                outfile σ Hvalid) as Hrun.
  assert (main read_csv file num_forms items_per_form None outfile σ
          = run data default_constraints num_forms items_per_form outfile σ) as ->.
  { unfold main, run. by rewrite Hread. }
  split; [done|]. rewrite Hrun. simpl. split; [done|].
  split; [apply lookup_insert_eq|].
  intros Hnames. eexists. split; [apply lookup_insert_eq|].
  rewrite program_line_count by (split; [done|apply default_constraints_free]).
  rewrite (valid_length names data default_constraints Hvalid). done.
Qed.

Lemma main_default_witness :
  (main (λ _, Ok scenario_a_data) "item_params.csv" 2 18 None "run.lp" σ0).2 = Ok tt.
Proof.
  refine (proj1 (proj2 (proj2 (main_default (λ _, Ok scenario_a_data) "item_params.csv"
                                 ["a"; "b"; "c"] scenario_a_data 2 18 "run.lp" σ0 _ _)))).
  - reflexivity.
  - unfold valid_input, DataFrame_wf. by_evaluation.
Defined.
